(** * Task API: ownership-scoped task store and token service

    A shallow embedding of [app/schemas.py], [app/crud.py], [app/auth.py]
    and [app/routers/tasks.py], with the properties of the store and of the
    token service proved over it.

    Conventions.
    - A Python [int] is a [Z]; a [str] is a [string]; a value that may be
      [None] is an [option].
    - A [datetime] is a [Z]: microseconds since the epoch (the resolution of
      [datetime.utcnow()]); a [timedelta] is a [Z] number of microseconds.
    - The SQLAlchemy session is a record of tables; a table is the list of
      its rows in insertion order.  A query is a [filter] over the rows,
      [.first()] is [head].
    - A raised exception is the [Raise] branch of [result]. *)

From Stdlib Require Import Ascii.
From stdpp Require Import base numbers list strings gmap fin_maps.

Local Open Scope string_scope.
Local Open Scope Z_scope.

(** ** Exceptions *)

Inductive result (E A : Type) : Type :=
| Ok (a : A)
| Raise (e : E).
Arguments Ok {E A} a.
Arguments Raise {E A} e.

(** [fastapi.HTTPException]: status code, detail and headers. *)
Record HTTPException := {
  status_code : Z;
  detail : string;
  headers : list (string * string)
}.

(** What a request handler can raise: an [HTTPException], pydantic's
    [ValidationError], or one of Python's built-in exceptions (none of
    which FastAPI turns into a 401 or a 404). *)
Inductive exn :=
| HTTP (e : HTTPException)
| ValidationError
| ValueError
| TypeError
| OverflowError.

(** ** app/models.py: enumerations and rows *)

Module models.

(** Modelled from the spec: [app/models.py] is absent; the two
    enumerations are the fixed sets the data model names,
    {todo, in_progress, done} and {low, medium, high}
    ([schemas.py] uses [TaskPriority.MEDIUM]). *)
Inductive TaskStatus := TODO | IN_PROGRESS | DONE.
Inductive TaskPriority := LOW | MEDIUM | HIGH.

#[global] Instance TaskStatus_eq_dec : EqDecision TaskStatus.
Proof. solve_decision. Defined.

#[global] Instance TaskPriority_eq_dec : EqDecision TaskPriority.
Proof. solve_decision. Defined.

Module User.
Record t := {
  id : Z;
  email : string;
  hashed_password : string;
  created_at : Z
}.
End User.

(** A task object.  The four business attributes are what [setattr] in
    [crud.update_task] writes, and a [TaskUpdate] field may be an explicit
    [None], so each of them is an [option]. *)
Module Task.
Record t := {
  id : Z;
  title : option string;
  description : option string;
  status : option TaskStatus;
  priority : option TaskPriority;
  user_id : Z;
  created_at : Z;
  updated_at : Z
}.
End Task.

#[global] Instance Task_eq_dec : EqDecision Task.t.
Proof. solve_decision. Defined.

(** The database behind a [Session]: the two tables and the counter of
    the [tasks] primary key. *)
Record Session := {
  users : list User.t;
  tasks : list Task.t;
  tasks_seq : Z
}.

(** Modelled from the spec: the column rules of the absent
    [app/models.py] at INSERT.  A new task gets a generated identifier
    (autoincrement), status [todo], and creation and update timestamps
    stamped identically. *)
Definition insert_defaults (seq now : Z)
    (title description : option string) (priority : option TaskPriority)
    (user_id : Z) : Task.t :=
  {| Task.id := seq;
     Task.title := title;
     Task.description := description;
     Task.status := Some TODO;
     Task.priority := priority;
     Task.user_id := user_id;
     Task.created_at := now;
     Task.updated_at := now |}.

(** Modelled from the spec: the column rule of the absent
    [app/models.py] at UPDATE; an UPDATE statement refreshes the
    updated-timestamp. *)
Definition onupdate (now : Z) (r : Task.t) : Task.t :=
  {| Task.id := Task.id r;
     Task.title := Task.title r;
     Task.description := Task.description r;
     Task.status := Task.status r;
     Task.priority := Task.priority r;
     Task.user_id := Task.user_id r;
     Task.created_at := Task.created_at r;
     Task.updated_at := now |}.

(** [db.add(obj); db.commit(); db.refresh(obj)] for a new task: the row is
    appended with the next identifier, and the refreshed object is that
    row. *)
Definition add_commit_refresh (db : Session) (now : Z)
    (title description : option string) (priority : option TaskPriority)
    (user_id : Z) : Session * Task.t :=
  let row := insert_defaults (tasks_seq db) now title description priority user_id in
  ({| users := users db;
      tasks := tasks db ++ [row];
      tasks_seq := tasks_seq db + 1 |}, row).

(** The UPDATE that a flush emits for a task object: the row with the
    object's primary key is rewritten, with the column rule [onupdate]. *)
Definition flush_update (db : Session) (now : Z) (obj : Task.t)
    : Session * Task.t :=
  let row := onupdate now obj in
  ({| users := users db;
      tasks := (λ r, if decide (Task.id r = Task.id obj) then row else r) <$> tasks db;
      tasks_seq := tasks_seq db |}, row).

(** [db.commit(); db.refresh(obj)] for a task object that came from the
    table and went through [setattr].  The unit of work emits an UPDATE
    only for an object with a net change: when every attribute holds the
    value that is stored (the object is a row of the table as it is), no
    statement is emitted, [onupdate] does not fire and the reload gives the
    row back.  Otherwise the UPDATE is emitted and the reload gives the
    rewritten row. *)
Definition commit_refresh (db : Session) (now : Z) (obj : Task.t)
    : Session * Task.t :=
  if decide (obj ∈ tasks db) then (db, obj) else flush_update db now obj.

(** The identifier the engine generates for a new user: users are never
    deleted, so it is one past the largest identifier in use. *)
Definition next_user_id (db : Session) : Z :=
  1 + foldr Z.max 0 (User.id <$> users db).

(** Modelled from the spec: the [users] table of the absent
    [app/models.py] at INSERT.  A new user gets a generated identifier and a
    creation timestamp.  [db.add(obj); db.commit(); db.refresh(obj)] appends
    the row; refusing an email that is already there is the engine's unique
    constraint and is not modelled, the properties of [create_user] are
    stated for an email that is not registered. *)
Definition add_user_commit_refresh (db : Session) (now : Z)
    (email hashed_password : string) : Session * User.t :=
  let row := {| User.id := next_user_id db;
                User.email := email;
                User.hashed_password := hashed_password;
                User.created_at := now |} in
  ({| users := users db ++ [row];
      tasks := tasks db;
      tasks_seq := tasks_seq db |}, row).

(** [db.delete(obj); db.commit()]: DELETE by primary key. *)
Definition delete_commit (db : Session) (obj : Task.t) : Session :=
  {| users := users db;
     tasks := filter (λ r, Task.id r ≠ Task.id obj) (tasks db);
     tasks_seq := tasks_seq db |}.

(** [.offset(skip)] and [.limit(limit)] with SQLite's reading of negative
    values (the engine that [tests/conftest.py] configures): a negative
    OFFSET is no offset, a negative LIMIT is no limit. *)
Definition offset {A} (skip : Z) (rows : list A) : list A :=
  drop (Z.to_nat skip) rows.
Definition limit {A} (n : Z) (rows : list A) : list A :=
  if decide (n < 0) then rows else take (Z.to_nat n) rows.

End models.

(** ** app/schemas.py *)

Module schemas.
Import models.

(** [UserCreate]: the registration request.  The format of [email]
    ([EmailStr]) is checked by the request layer. *)
Module UserCreate.
Record t := {
  email : string;
  password : string
}.
End UserCreate.

(** [TaskCreate] (= [TaskBase]): a validated creation request. *)
Module TaskCreate.
Record t := {
  title : string;
  description : option string;
  priority : TaskPriority
}.

(** Building the model from the request body: [priority] defaults to
    [TaskPriority.MEDIUM] when the body has none; the [Field] bounds are
    [min_length=1, max_length=200] on [title] and [max_length=1000] on
    [description] (lengths in characters of the [string]).  A body that
    breaks a bound is rejected. *)
Definition validate (title : string) (description : option string)
    (priority : option TaskPriority) : option t :=
  if bool_decide (1 ≤ String.length title ≤ 200)%nat
     && from_option (λ d, bool_decide (String.length d ≤ 1000)%nat) true description
  then Some {| title := title;
               description := description;
               priority := default MEDIUM priority |}
  else None.
End TaskCreate.

(** The names of the fields of [TaskUpdate]. *)
Inductive field := f_title | f_description | f_status | f_priority.

#[global] Instance field_eq_dec : EqDecision field.
Proof. solve_decision. Defined.

(** [TaskUpdate]: every field is [Optional[...] = None], with no [Field]
    bound.  Pydantic records in [model_fields_set] which fields the request
    body set explicitly (a field set to [null] is set). *)
Module TaskUpdate.
Record t := {
  title : option string;
  description : option string;
  status : option TaskStatus;
  priority : option TaskPriority;
  model_fields_set : list field
}.
End TaskUpdate.

(** One entry [(field, value)] of a dumped [TaskUpdate]. *)
Inductive item :=
| item_title (value : option string)
| item_description (value : option string)
| item_status (value : option TaskStatus)
| item_priority (value : option TaskPriority).

(** [task.model_dump(exclude_unset=True)]: the fields that were set, in
    declaration order, with their values. *)
Definition model_dump_exclude_unset (task : TaskUpdate.t) : list item :=
  let keep (f : field) (i : item) : list item :=
    if decide (f ∈ TaskUpdate.model_fields_set task) then [i] else [] in
  keep f_title (item_title (TaskUpdate.title task))
  ++ keep f_description (item_description (TaskUpdate.description task))
  ++ keep f_status (item_status (TaskUpdate.status task))
  ++ keep f_priority (item_priority (TaskUpdate.priority task)).

(** [TokenData]. *)
Module TokenData.
Record t := { email : option string }.
End TokenData.

End schemas.

(** ** app/crud.py *)

Module crud.
Import models schemas.

Definition get_user (db : Session) (user_id : Z) : option User.t :=
  head (filter (λ u, User.id u = user_id) (users db)).

Definition get_user_by_email (db : Session) (email : string) : option User.t :=
  head (filter (λ u, User.email u = email) (users db)).

Section passwords.
(** [pwd_context.verify] of passlib's bcrypt context. *)
Variable pwd_context_verify : string → string → bool.

Definition verify_password (plain_password hashed_password : string) : bool :=
  pwd_context_verify plain_password hashed_password.

Definition authenticate_user (db : Session) (email password : string)
    : option User.t :=
  match get_user_by_email db email with
  | None => None
  | Some user =>
      if negb (verify_password password (User.hashed_password user))
      then None
      else Some user
  end.
End passwords.

Section hashing.
(** [pwd_context.hash] of passlib's bcrypt context; the salt it draws is an
    input. *)
Variable pwd_context_hash : string → string → string.

Definition get_password_hash (salt password : string) : string :=
  pwd_context_hash salt password.

Definition create_user (db : Session) (user : UserCreate.t) (salt : string)
    (now : Z) : Session * User.t :=
  let hashed_password := get_password_hash salt (UserCreate.password user) in
  add_user_commit_refresh db now (UserCreate.email user) hashed_password.
End hashing.

(** [skip] and [limit] are given explicitly; the Python defaults are 0 and
    100. *)
Definition get_tasks (db : Session) (user_id : Z) (skip limit : Z)
    : list Task.t :=
  models.limit limit
    (models.offset skip
       (filter (λ t, Task.user_id t = user_id) (tasks db))).

Definition get_task (db : Session) (task_id user_id : Z) : option Task.t :=
  head (filter (λ t, Task.id t = task_id ∧ Task.user_id t = user_id) (tasks db)).

Definition create_task (db : Session) (task : TaskCreate.t) (user_id : Z)
    (now : Z) : Session * Task.t :=
  add_commit_refresh db now
    (Some (TaskCreate.title task))
    (TaskCreate.description task)
    (Some (TaskCreate.priority task))
    user_id.

(** [setattr(db_task, field, value)]. *)
Definition setattr (db_task : Task.t) (i : item) : Task.t :=
  match i with
  | item_title v =>
      {| Task.id := Task.id db_task; Task.title := v;
         Task.description := Task.description db_task;
         Task.status := Task.status db_task;
         Task.priority := Task.priority db_task;
         Task.user_id := Task.user_id db_task;
         Task.created_at := Task.created_at db_task;
         Task.updated_at := Task.updated_at db_task |}
  | item_description v =>
      {| Task.id := Task.id db_task; Task.title := Task.title db_task;
         Task.description := v;
         Task.status := Task.status db_task;
         Task.priority := Task.priority db_task;
         Task.user_id := Task.user_id db_task;
         Task.created_at := Task.created_at db_task;
         Task.updated_at := Task.updated_at db_task |}
  | item_status v =>
      {| Task.id := Task.id db_task; Task.title := Task.title db_task;
         Task.description := Task.description db_task;
         Task.status := v;
         Task.priority := Task.priority db_task;
         Task.user_id := Task.user_id db_task;
         Task.created_at := Task.created_at db_task;
         Task.updated_at := Task.updated_at db_task |}
  | item_priority v =>
      {| Task.id := Task.id db_task; Task.title := Task.title db_task;
         Task.description := Task.description db_task;
         Task.status := Task.status db_task;
         Task.priority := v;
         Task.user_id := Task.user_id db_task;
         Task.created_at := Task.created_at db_task;
         Task.updated_at := Task.updated_at db_task |}
  end.

Definition update_task (db : Session) (task_id : Z) (task : TaskUpdate.t)
    (user_id : Z) (now : Z) : Session * option Task.t :=
  match get_task db task_id user_id with
  | None => (db, None)
  | Some db_task =>
      let update_data := model_dump_exclude_unset task in
      let db_task := foldl setattr db_task update_data in
      let '(db, db_task) := commit_refresh db now db_task in
      (db, Some db_task)
  end.

Definition delete_task (db : Session) (task_id user_id : Z)
    : Session * option Task.t :=
  match get_task db task_id user_id with
  | None => (db, None)
  | Some db_task => (delete_commit db db_task, Some db_task)
  end.

End crud.

(** ** app/routers/tasks.py *)

Module tasks_router.
Import models schemas.

Definition task_not_found : HTTPException :=
  {| status_code := 404; detail := "Task not found"; headers := [] |}.

Definition read_tasks (db : Session) (current_user : User.t) (skip limit : Z)
    : list Task.t :=
  crud.get_tasks db (User.id current_user) skip limit.

Definition create_task (db : Session) (current_user : User.t)
    (task : TaskCreate.t) (now : Z) : Session * Task.t :=
  crud.create_task db task (User.id current_user) now.

Definition read_task (db : Session) (current_user : User.t) (task_id : Z)
    : result HTTPException Task.t :=
  match crud.get_task db task_id (User.id current_user) with
  | None => Raise task_not_found
  | Some db_task => Ok db_task
  end.

Definition update_task (db : Session) (current_user : User.t) (task_id : Z)
    (task : TaskUpdate.t) (now : Z)
    : Session * result HTTPException Task.t :=
  match crud.update_task db task_id task (User.id current_user) now with
  | (db, None) => (db, Raise task_not_found)
  | (db, Some db_task) => (db, Ok db_task)
  end.

Definition delete_task (db : Session) (current_user : User.t) (task_id : Z)
    : Session * result HTTPException string :=
  match crud.delete_task db task_id (User.id current_user) with
  | (db, None) => (db, Raise task_not_found)
  | (db, Some _) => (db, Ok "Task deleted successfully")
  end.

End tasks_router.

(** ** python-jose: [jose.jwt]

    The library is not part of the repository.  A token is modelled as the
    parse of its compact serialization (a payload that is not a JSON object
    counts as malformed), and an HMAC tag is symbolic: the key, algorithm
    and claims it was computed over.  [encode] writes the time claims as
    whole seconds.  [decode] follows [jwt.decode] with its default options:
    the serialization, the algorithm and the tag, then the claims in the
    library's order [iat], [nbf], [exp], [aud], [iss], [sub], [jti],
    [at_hash].  A failed check raises [JWTError] or one of its two
    subclasses; a built-in exception raised on the way ([int] of a null
    time claim, say) is not caught by the library. *)

Module jose.

(** A Python [float]: a finite one as a fraction, or what the JSON
    literals [Infinity] and [NaN] load as. *)
Inductive pyfloat :=
| Finite (num : Z) (den : positive)
| Infinity
| NaN.

#[global] Instance pyfloat_eq_dec : EqDecision pyfloat.
Proof. solve_decision. Defined.

(** A claim value: what [json.loads] gives (an array or an object is kept
    as its JSON text), or, before encoding, a Python [datetime]. *)
Inductive value :=
| VStr (s : string)
| VInt (n : Z)
| VDatetime (t : Z)
| VNull
| VBool (b : bool)
| VFloat (x : pyfloat)
| VArray (json : string)
| VObject (json : string).

#[global] Instance value_eq_dec : EqDecision value.
Proof. solve_decision. Defined.

Record signature := {
  sig_key : string;
  sig_alg : string;
  sig_claims : gmap string value
}.

#[global] Instance signature_eq_dec : EqDecision signature.
Proof. solve_decision. Defined.

Record jws := {
  header_alg : string;
  claims : gmap string value;
  tag : signature
}.

(** A token string: three well-formed segments, or anything else. *)
Inductive token :=
| Malformed (raw : string)
| Compact (t : jws).

(** [JWTError] and its subclasses; [except JWTError] catches the three. *)
Inductive JWTError :=
| JWTError_
| ExpiredSignatureError
| JWTClaimsError.

(** What [jwt.decode] can raise: an instance of [JWTError], or an
    exception of another class. *)
Inductive raised :=
| JWT (e : JWTError)
| Other (e : exn).

(** [timegm(dt.utctimetuple())]: the whole seconds of a [datetime]. *)
Definition timegm (dt : Z) : Z := dt / 1000000.

Definition sign (key algorithm : string) (c : gmap string value) : signature :=
  {| sig_key := key; sig_alg := algorithm; sig_claims := c |}.

(** One round of the loop that opens [jwt.encode]: a [datetime] under
    [time_claim] becomes its whole seconds. *)
Definition to_intdate (c : gmap string value) (time_claim : string)
    : gmap string value :=
  match c !! time_claim with
  | Some (VDatetime dt) => <[time_claim := VInt (timegm dt)]> c
  | _ => c
  end.

(** [jwt.encode(claims, key, algorithm)]: the time claims [exp], [iat]
    and [nbf] are converted, then the claims are signed.  The claims are
    taken to be serializable: a [datetime] under another name, which
    [json.dumps] refuses, is outside the model. *)
Definition encode (c : gmap string value) (key algorithm : string) : token :=
  let c := foldl to_intdate c ["exp"; "iat"; "nbf"] in
  Compact {| header_alg := algorithm; claims := c; tag := sign key algorithm c |}.

(** *** Python's [int]

    On a [str], [int] reads a decimal numeral: blanks around it, a sign,
    digits, single underscores between digits.  The ASCII spellings are
    modelled; the non-ASCII digits and blanks that Python also accepts are
    not, nor is the cap that recent interpreters put on the number of
    digits. *)

Definition is_blank (a : ascii) : bool :=
  let n := nat_of_ascii a in
  (Nat.leb 9 n && Nat.leb n 13) || (Nat.leb 28 n && Nat.leb n 32).

Definition digit (a : ascii) : option Z :=
  let n := nat_of_ascii a in
  if Nat.leb 48 n && Nat.leb n 57 then Some (Z.of_nat n - 48) else None.

Fixpoint lstrip (l : list ascii) : list ascii :=
  match l with
  | a :: l' => if is_blank a then lstrip l' else l
  | [] => []
  end.

Definition strip (l : list ascii) : list ascii :=
  rev (lstrip (rev (lstrip l))).

(** The digits of a numeral, most significant first; [after_digit] tells
    whether the previous character was a digit, which is where an
    underscore or the end may come. *)
Fixpoint digits (acc : Z) (after_digit : bool) (l : list ascii) : option Z :=
  match l with
  | [] => if after_digit then Some acc else None
  | a :: l' =>
      match digit a with
      | Some d => digits (10 * acc + d) true l'
      | None =>
          if Ascii.eqb a "_"%char && after_digit then digits acc false l' else None
      end
  end.

Definition int_of_str (s : string) : option Z :=
  match strip (String.list_ascii_of_string s) with
  | a :: l =>
      if Ascii.eqb a "-"%char then Z.opp <$> digits 0 false l
      else if Ascii.eqb a "+"%char then digits 0 false l
      else digits 0 false (a :: l)
  | [] => None
  end.

(** [int(v)]: a [bool] is an [int]; a [float] is truncated towards zero,
    [Infinity] overflows and [NaN] is a [ValueError]; a [str] is read as a
    numeral; anything else is a [TypeError]. *)
Definition int (v : value) : result exn Z :=
  match v with
  | VInt n => Ok n
  | VBool b => Ok (if b then 1 else 0)
  | VFloat (Finite num den) => Ok (Z.quot num (Z.pos den))
  | VFloat Infinity => Raise OverflowError
  | VFloat NaN => Raise ValueError
  | VStr s =>
      match int_of_str s with
      | Some n => Ok n
      | None => Raise ValueError
      end
  | VDatetime _ | VNull | VArray _ | VObject _ => Raise TypeError
  end.

(** [try: int(claims[name]) except ValueError: raise JWTClaimsError(...)]
    for a claim that is present: only the [ValueError] is caught. *)
Definition int_claim (c : gmap string value) (name : string)
    : result raised (option Z) :=
  match c !! name with
  | None => Ok None
  | Some v =>
      match int v with
      | Ok n => Ok (Some n)
      | Raise ValueError => Raise (JWT JWTClaimsError)
      | Raise e => Raise (Other e)
      end
  end.

(** *** The checks of [_validate_claims] *)

(** [_validate_iat]: a present [iat] must convert to an integer. *)
Definition validate_iat (c : gmap string value) : result raised unit :=
  match int_claim c "iat" with
  | Ok _ => Ok ()
  | Raise e => Raise e
  end.

(** [_validate_nbf]: a present [nbf] must convert to an integer and must
    not be after [now]. *)
Definition validate_nbf (c : gmap string value) (utcnow : Z)
    : result raised unit :=
  match int_claim c "nbf" with
  | Ok None => Ok ()
  | Ok (Some nbf) =>
      if decide (timegm utcnow < nbf) then Raise (JWT JWTClaimsError) else Ok ()
  | Raise e => Raise e
  end.

(** [_validate_exp]: a present [exp] must convert to an integer; with
    [now = timegm(datetime.utcnow().utctimetuple())] and no leeway, the
    library raises [ExpiredSignatureError] when [exp < now], so a token is
    still accepted during the second of its expiry. *)
Definition validate_exp (c : gmap string value) (utcnow : Z)
    : result raised unit :=
  match int_claim c "exp" with
  | Ok None => Ok ()
  | Ok (Some exp) =>
      if decide (exp < timegm utcnow) then Raise (JWT ExpiredSignatureError)
      else Ok ()
  | Raise e => Raise e
  end.

(** [_validate_aud] with no audience given: whatever a present [aud] is
    (a string, a list of strings, anything else), the check fails. *)
Definition validate_aud (c : gmap string value) : result raised unit :=
  match c !! "aud" with
  | None => Ok ()
  | Some _ => Raise (JWT JWTClaimsError)
  end.

(** [_validate_sub]: a present [sub] must be a string.  ([_validate_iss]
    checks nothing when no issuer is given.) *)
Definition validate_sub (c : gmap string value) : result raised unit :=
  match c !! "sub" with
  | None => Ok ()
  | Some (VStr _) => Ok ()
  | Some _ => Raise (JWT JWTClaimsError)
  end.

(** [_validate_jti]: a present [jti] must be a string. *)
Definition validate_jti (c : gmap string value) : result raised unit :=
  match c !! "jti" with
  | None => Ok ()
  | Some (VStr _) => Ok ()
  | Some _ => Raise (JWT JWTClaimsError)
  end.

(** [_validate_at_hash] with no access token given: a present [at_hash]
    fails. *)
Definition validate_at_hash (c : gmap string value) : result raised unit :=
  match c !! "at_hash" with
  | None => Ok ()
  | Some _ => Raise (JWT JWTClaimsError)
  end.

(** The checks one after the other; the first that raises decides. *)
Definition then_ (r : result raised unit) (k : result raised unit)
    : result raised unit :=
  match r with
  | Ok _ => k
  | Raise e => Raise e
  end.

Definition validate_claims (c : gmap string value) (utcnow : Z)
    : result raised unit :=
  then_ (validate_iat c)
    (then_ (validate_nbf c utcnow)
       (then_ (validate_exp c utcnow)
          (then_ (validate_aud c)
             (then_ (validate_sub c)
                (then_ (validate_jti c) (validate_at_hash c)))))).

(** [jwt.decode(token, key, algorithms=...)]. *)
Definition decode (tok : token) (key : string) (algorithms : list string)
    (utcnow : Z) : result raised (gmap string value) :=
  match tok with
  | Malformed _ => Raise (JWT JWTError_)
  | Compact t =>
      if decide (header_alg t ∈ algorithms) then
        if decide (tag t = sign key (header_alg t) (claims t)) then
          match validate_claims (claims t) utcnow with
          | Raise e => Raise e
          | Ok _ => Ok (claims t)
          end
        else Raise (JWT JWTError_)
      else Raise (JWT JWTError_)
  end.

End jose.

(** ** app/auth.py *)

Module auth.
Import models schemas jose.

Definition SECRET_KEY : string := "your-secret-key-here-change-in-production".
Definition ALGORITHM : string := "HS256".
Definition ACCESS_TOKEN_EXPIRE_MINUTES : Z := 30.

(** [timedelta(minutes=m)]. *)
Definition timedelta_minutes (m : Z) : Z := m * 60 * 1000000.

(** The truth value of an [Optional[timedelta]]: [None] and
    [timedelta(0)] are false. *)
Definition truthy (expires_delta : option Z) : bool :=
  match expires_delta with
  | None => false
  | Some d => bool_decide (d ≠ 0)
  end.

Definition create_access_token (data : gmap string value)
    (expires_delta : option Z) (utcnow : Z) : token :=
  let to_encode := data in
  let expire :=
    if truthy expires_delta
    then utcnow + default 0 expires_delta
    else utcnow + timedelta_minutes 15 in
  let to_encode := <["exp" := VDatetime expire]> to_encode in
  encode to_encode SECRET_KEY ALGORITHM.

(** [except JWTError] catches the library's own exceptions; any other
    exception raised inside [jwt.decode] passes through. *)
Definition verify_token (tok : token) (credentials_exception : HTTPException)
    (utcnow : Z) : result exn TokenData.t :=
  match decode tok SECRET_KEY [ALGORITHM] utcnow with
  | Ok payload =>
      match payload !! "sub" with
      | None | Some VNull => Raise (HTTP credentials_exception)
      | Some (VStr email) => Ok {| TokenData.email := Some email |}
      | Some _ => Raise ValidationError
      end
  | Raise (JWT _) => Raise (HTTP credentials_exception)
  | Raise (Other e) => Raise e
  end.

Definition credentials_exception : HTTPException :=
  {| status_code := 401;
     detail := "Could not validate credentials";
     headers := [("WWW-Authenticate", "Bearer")] |}.

(** [token_data.email] is an [Optional[str]]; no row has a null email, so
    a lookup of [None] finds no user. *)
Definition get_current_user (tok : token) (db : Session) (utcnow : Z)
    : result exn User.t :=
  match verify_token tok credentials_exception utcnow with
  | Raise e => Raise e
  | Ok token_data =>
      match TokenData.email token_data ≫= crud.get_user_by_email db with
      | None => Raise (HTTP credentials_exception)
      | Some user => Ok user
      end
  end.

Definition get_current_active_user (current_user : User.t) : User.t :=
  current_user.

(** Modelled from the spec: the login endpoint of the absent
    [app/routers/auth.py].  It authenticates the credentials and, for the
    user found, issues a token for the user's email with a lifetime of
    [ACCESS_TOKEN_EXPIRE_MINUTES] (30 minutes); a failed login is the one
    error [Incorrect email or password] that [tests/test_auth.py] expects. *)
Definition login (pwd_context_verify : string → string → bool)
    (db : Session) (username password : string) (utcnow : Z)
    : result HTTPException token :=
  match crud.authenticate_user pwd_context_verify db username password with
  | None =>
      Raise {| status_code := 401;
               detail := "Incorrect email or password";
               headers := [("WWW-Authenticate", "Bearer")] |}
  | Some user =>
      Ok (create_access_token {[ "sub" := VStr (User.email user) ]}
            (Some (timedelta_minutes ACCESS_TOKEN_EXPIRE_MINUTES)) utcnow)
  end.

End auth.

(** ** The task endpoints behind [Depends(get_current_user)]

    FastAPI resolves the dependency before it calls the handler: when
    [get_current_user] raises, the handler does not run.  An endpoint here
    is the value its handler returns or the exception raised, before the
    response is serialized. *)

Module endpoints.
Import models schemas.

Definition not_found {A} (r : result HTTPException A) : result exn A :=
  match r with
  | Ok a => Ok a
  | Raise e => Raise (HTTP e)
  end.

Definition read_tasks (tok : jose.token) (db : Session) (utcnow : Z)
    (skip limit : Z) : result exn (list Task.t) :=
  match auth.get_current_user tok db utcnow with
  | Raise e => Raise e
  | Ok current_user => Ok (tasks_router.read_tasks db current_user skip limit)
  end.

Definition create_task (tok : jose.token) (db : Session) (utcnow : Z)
    (task : TaskCreate.t) : Session * result exn Task.t :=
  match auth.get_current_user tok db utcnow with
  | Raise e => (db, Raise e)
  | Ok current_user =>
      let '(db, db_task) := tasks_router.create_task db current_user task utcnow in
      (db, Ok db_task)
  end.

Definition read_task (tok : jose.token) (db : Session) (utcnow : Z)
    (task_id : Z) : result exn Task.t :=
  match auth.get_current_user tok db utcnow with
  | Raise e => Raise e
  | Ok current_user => not_found (tasks_router.read_task db current_user task_id)
  end.

Definition update_task (tok : jose.token) (db : Session) (utcnow : Z)
    (task_id : Z) (task : TaskUpdate.t) : Session * result exn Task.t :=
  match auth.get_current_user tok db utcnow with
  | Raise e => (db, Raise e)
  | Ok current_user =>
      let '(db, r) := tasks_router.update_task db current_user task_id task utcnow in
      (db, not_found r)
  end.

Definition delete_task (tok : jose.token) (db : Session) (utcnow : Z)
    (task_id : Z) : Session * result exn string :=
  match auth.get_current_user tok db utcnow with
  | Raise e => (db, Raise e)
  | Ok current_user =>
      let '(db, r) := tasks_router.delete_task db current_user task_id in
      (db, not_found r)
  end.

End endpoints.

(** ** The store as a transition system

    The five operations of the task store as requests served one after the
    other, each at the time the database clock shows. *)

Module store.
Import models schemas.

Inductive request :=
| Create (owner : Z) (task : TaskCreate.t)
| Get (owner task_id : Z)
| Listing (owner skip limit : Z)
| Update (owner task_id : Z) (task : TaskUpdate.t)
| Delete (owner task_id : Z).

Definition serve (db : Session) (timed : Z * request) : Session :=
  let '(now, r) := timed in
  match r with
  | Create owner task => (crud.create_task db task owner now).1
  | Get _ _ => db
  | Listing _ _ _ => db
  | Update owner task_id task => (crud.update_task db task_id task owner now).1
  | Delete owner task_id => (crud.delete_task db task_id owner).1
  end.

Definition serve_all (db : Session) (rs : list (Z * request)) : Session :=
  foldl serve db rs.

(** A title within the bounds that [TaskBase] sets. *)
Definition title_in_bounds (r : Task.t) : Prop :=
  ∃ s, Task.title r = Some s ∧ (1 ≤ String.length s ≤ 200)%nat.

(** A request that cannot bring in a title out of bounds: a create whose
    body passed [TaskCreate.validate], an update whose body does not set
    [title], or any read or delete. *)
Definition title_safe (r : request) : Prop :=
  match r with
  | Create _ task =>
      TaskCreate.validate (TaskCreate.title task) (TaskCreate.description task)
        (Some (TaskCreate.priority task)) = Some task
  | Update _ _ task => f_title ∉ TaskUpdate.model_fields_set task
  | _ => True
  end.

(** The owner on whose behalf a request is made. *)
Definition requester (r : request) : Z :=
  match r with
  | Create owner _ => owner
  | Get owner _ => owner
  | Listing owner _ _ => owner
  | Update owner _ _ => owner
  | Delete owner _ => owner
  end.

(** What the storage engine guarantees of the [tasks] table: [id] is a
    primary key (no two rows share it) and every identifier in use was
    handed out by the counter. *)
Definition store_ok (db : Session) : Prop :=
  NoDup (Task.id <$> tasks db)
  ∧ Forall (λ r, Task.id r < tasks_seq db) (tasks db).

#[global] Instance store_ok_dec db : Decision (store_ok db).
Proof. unfold store_ok. apply _. Defined.

Definition empty : Session :=
  {| users := []; tasks := []; tasks_seq := 1 |}.

(** Every row was created no later than it was last updated, and last
    updated no later than [now]. *)
Definition stamped_by (now : Z) (db : Session) : Prop :=
  Forall (λ r, Task.created_at r ≤ Task.updated_at r ≤ now) (tasks db).

(** The requests are served in the order of the clock, none before
    [since]. *)
Fixpoint chronological (since : Z) (rs : list (Z * request)) : Prop :=
  match rs with
  | [] => True
  | (now, _) :: rs => since ≤ now ∧ chronological now rs
  end.

(** The time of the last request served. *)
Fixpoint clock (since : Z) (rs : list (Z * request)) : Z :=
  match rs with
  | [] => since
  | (now, _) :: rs => clock now rs
  end.

(** The value a field has after an update: the payload's value if the
    payload set the field, the old value otherwise. *)
Definition chosen {A} (task : TaskUpdate.t) (f : field) (new old : A) : A :=
  if decide (f ∈ TaskUpdate.model_fields_set task) then new else old.

(** The four business fields of a task. *)
Definition business (r : Task.t)
    : option string * option string * option TaskStatus * option TaskPriority :=
  (Task.title r, Task.description r, Task.status r, Task.priority r).

End store.

(** ** Sample data

    Two users, one task each, and a few payloads; the concrete inputs at
    which the theorems below are instantiated. *)

Module samples.
Import models schemas.

Definition alice : User.t :=
  {| User.id := 1; User.email := "a@example.com";
     User.hashed_password := "hash:pw12345678"; User.created_at := 0 |}.

Definition bob : User.t :=
  {| User.id := 2; User.email := "b@example.com";
     User.hashed_password := "hash:hunter2hunter2"; User.created_at := 5 |}.

Definition milk : Task.t :=
  {| Task.id := 1; Task.title := Some "Buy milk"; Task.description := None;
     Task.status := Some TODO; Task.priority := Some MEDIUM;
     Task.user_id := 1; Task.created_at := 10; Task.updated_at := 10 |}.

Definition report : Task.t :=
  {| Task.id := 2; Task.title := Some "Write report";
     Task.description := Some "quarterly";
     Task.status := Some IN_PROGRESS; Task.priority := Some HIGH;
     Task.user_id := 2; Task.created_at := 20; Task.updated_at := 25 |}.

Definition db : Session :=
  {| users := [alice; bob]; tasks := [milk; report]; tasks_seq := 3 |}.

(** The body [{}]. *)
Definition no_fields : TaskUpdate.t :=
  {| TaskUpdate.title := None; TaskUpdate.description := None;
     TaskUpdate.status := None; TaskUpdate.priority := None;
     TaskUpdate.model_fields_set := [] |}.

(** The body [{"status": "done"}]. *)
Definition status_done : TaskUpdate.t :=
  {| TaskUpdate.title := None; TaskUpdate.description := None;
     TaskUpdate.status := Some DONE; TaskUpdate.priority := None;
     TaskUpdate.model_fields_set := [f_status] |}.

(** The body [{"title": ""}]. *)
Definition empty_title : TaskUpdate.t :=
  {| TaskUpdate.title := Some ""; TaskUpdate.description := None;
     TaskUpdate.status := None; TaskUpdate.priority := None;
     TaskUpdate.model_fields_set := [f_title] |}.

(** The claims [{"sub": "a@example.com", "exp": null}]. *)
Definition null_expiry_claims : gmap string jose.value :=
  <["exp" := jose.VNull]> {[ "sub" := jose.VStr "a@example.com" ]}.

(** The token with these claims, signed with the key and the algorithm
    that [app/auth.py] configures. *)
Definition null_expiry_token : jose.token :=
  jose.Compact
    {| jose.header_alg := auth.ALGORITHM;
       jose.claims := null_expiry_claims;
       jose.tag := jose.sign auth.SECRET_KEY auth.ALGORITHM null_expiry_claims |}.

(** A stand-in for bcrypt hashing, for concrete instances only. *)
Definition toy_hash (salt plain : string) : string := "hash:" +:+ plain.

(** A stand-in for bcrypt verification, for concrete instances only. *)
Definition toy_verify (plain hashed : string) : bool :=
  bool_decide (hashed = "hash:" +:+ plain).

End samples.

(** * Properties *)

Import models schemas.

(** A decidable side condition on concrete data, settled by evaluation. *)
Ltac by_evaluation :=
  lazymatch goal with
  | |- ?P => apply (bool_decide_unpack P); vm_compute; exact I
  end.

(** ** Lookups *)

Section lookups.
Implicit Types (db : Session) (t r : Task.t) (rows : list Task.t).

Lemma get_task_Some db task_id user_id t :
  crud.get_task db task_id user_id = Some t →
  t ∈ tasks db ∧ Task.id t = task_id ∧ Task.user_id t = user_id.
Proof.
  intros Hhead. apply head_Some_elem_of in Hhead.
  apply list_elem_of_filter in Hhead as [[Hid Howner] Hin]. done.
Qed.

Lemma get_task_None db task_id user_id :
  crud.get_task db task_id user_id = None ↔
  ∀ r, r ∈ tasks db → ¬ (Task.id r = task_id ∧ Task.user_id r = user_id).
Proof.
  unfold crud.get_task. rewrite head_None. split.
  - intros Hnil r Hr HP.
    by apply (filter_nil_not_elem_of _ _ r Hnil HP).
  - intros Hall. induction (tasks db) as [|x rows IH]; [done|].
    rewrite filter_cons_False.
    + apply IH. intros r Hr. apply Hall. by right.
    + apply Hall. by left.
Qed.

(** In a table with a primary key the first match is the only match. *)
Lemma head_filter_key rows t (P : Task.t → Prop) `{!∀ r, Decision (P r)} :
  NoDup (Task.id <$> rows) →
  t ∈ rows → P t →
  (∀ r, P r → Task.id r = Task.id t) →
  head (filter P rows) = Some t.
Proof.
  intros Hkey Hin HPt Hid.
  induction rows as [|x rows IH]; [by apply not_elem_of_nil in Hin|].
  rewrite fmap_cons in Hkey. apply NoDup_cons in Hkey as [Hfresh Hkey].
  apply elem_of_cons in Hin as [->|Hin].
  - by rewrite filter_cons_True.
  - rewrite filter_cons_False; [by apply IH|].
    intros HPx. apply Hfresh. rewrite (Hid x HPx).
    by apply list_elem_of_fmap_2.
Qed.

Lemma get_task_owned db t :
  store.store_ok db → t ∈ tasks db →
  crud.get_task db (Task.id t) (Task.user_id t) = Some t.
Proof.
  intros [Hkey _] Hin. apply head_filter_key; [done|done|done|].
  by intros r [Hid _].
Qed.

Lemma key_unique db t r :
  store.store_ok db → t ∈ tasks db → r ∈ tasks db →
  Task.id r = Task.id t → r = t.
Proof.
  intros [Hkey _] Ht Hr Hid.
  pose proof (head_filter_key (tasks db) t (λ x, Task.id x = Task.id t)
                Hkey Ht eq_refl (λ _ H, H)) as Hfirst.
  pose proof (head_filter_key (tasks db) r (λ x, Task.id x = Task.id t)
                Hkey Hr Hid) as Hfirst'.
  rewrite Hfirst' in Hfirst; [congruence|].
  intros x Hx. congruence.
Qed.

End lookups.

(** ** What an update can and cannot write *)

Section setattr.
Implicit Types (t : Task.t) (i : item) (task : TaskUpdate.t).

(** Two task objects with the same eight attributes are the same. *)
Lemma Task_eq t r :
  store.business t = store.business r →
  Task.id t = Task.id r → Task.user_id t = Task.user_id r →
  Task.created_at t = Task.created_at r → Task.updated_at t = Task.updated_at r →
  t = r.
Proof.
  destruct t, r. unfold store.business. cbn. intros [= -> -> -> ->] -> -> -> ->.
  done.
Qed.

(** No [item] names the identifier, the owner or a timestamp. *)
Lemma setattr_frame t i :
  Task.id (crud.setattr t i) = Task.id t
  ∧ Task.user_id (crud.setattr t i) = Task.user_id t
  ∧ Task.created_at (crud.setattr t i) = Task.created_at t
  ∧ Task.updated_at (crud.setattr t i) = Task.updated_at t.
Proof. by destruct i. Qed.

Lemma foldl_setattr_frame (update_data : list item) t :
  Task.id (foldl crud.setattr t update_data) = Task.id t
  ∧ Task.user_id (foldl crud.setattr t update_data) = Task.user_id t
  ∧ Task.created_at (foldl crud.setattr t update_data) = Task.created_at t
  ∧ Task.updated_at (foldl crud.setattr t update_data) = Task.updated_at t.
Proof.
  revert t. induction update_data as [|i update_data IH]; intros t; [done|].
  cbn [foldl]. destruct (IH (crud.setattr t i)) as (-> & -> & -> & ->).
  apply setattr_frame.
Qed.

Lemma foldl_setattr_dump t task :
  let t' := foldl crud.setattr t (model_dump_exclude_unset task) in
  Task.title t' = store.chosen task f_title (TaskUpdate.title task) (Task.title t)
  ∧ Task.description t'
    = store.chosen task f_description (TaskUpdate.description task) (Task.description t)
  ∧ Task.status t' = store.chosen task f_status (TaskUpdate.status task) (Task.status t)
  ∧ Task.priority t'
    = store.chosen task f_priority (TaskUpdate.priority task) (Task.priority t).
Proof.
  unfold model_dump_exclude_unset, store.chosen.
  repeat case_decide; done.
Qed.

End setattr.

(** ** The storage invariant is kept by every operation *)

Section invariant.
Implicit Types (db : Session) (t r : Task.t).

Lemma store_ok_empty : store.store_ok store.empty.
Proof. by split; constructor. Qed.

Lemma create_task_ok db task user_id now :
  store.store_ok db → store.store_ok (crud.create_task db task user_id now).1.
Proof.
  intros [Hkey Hseq]. rewrite Forall_forall in Hseq.
  split; [|apply Forall_forall]; cbn.
  - rewrite fmap_app. apply NoDup_app. split; [done|]. split; [|apply NoDup_singleton].
    intros x Hx Hx'. apply list_elem_of_singleton in Hx'. subst x.
    apply list_elem_of_fmap in Hx as (r & Hid & Hr). cbn in Hid.
    specialize (Hseq r Hr). lia.
  - intros r Hr. apply elem_of_app in Hr as [Hr|Hr].
    + specialize (Hseq r Hr). lia.
    + apply list_elem_of_singleton in Hr. subst r. cbn. lia.
Qed.

(** The two branches of [commit_refresh]. *)
Lemma commit_refresh_clean db now obj :
  obj ∈ tasks db → commit_refresh db now obj = (db, obj).
Proof. intros Hclean. unfold commit_refresh. by rewrite decide_True. Qed.

Lemma commit_refresh_dirty db now obj :
  obj ∉ tasks db → commit_refresh db now obj = flush_update db now obj.
Proof. intros Hdirty. unfold commit_refresh. by rewrite decide_False. Qed.

(** The table after the commit: as it was, or with the object's row
    rewritten. *)
Lemma commit_refresh_tasks db now obj :
  tasks (commit_refresh db now obj).1 = tasks db
  ∨ tasks (commit_refresh db now obj).1
    = (λ r, if decide (Task.id r = Task.id obj) then onupdate now obj else r)
      <$> tasks db.
Proof. unfold commit_refresh. case_decide; [by left|by right]. Qed.

(** UPDATE by primary key keeps the column of identifiers as it is. *)
Lemma commit_refresh_ids db now obj :
  Task.id <$> tasks (commit_refresh db now obj).1 = Task.id <$> tasks db.
Proof.
  unfold commit_refresh. case_decide; [done|].
  cbn. rewrite <- list_fmap_compose. apply list_fmap_ext.
  intros _ r _. cbn. by case_decide.
Qed.

Lemma commit_refresh_seq db now obj :
  tasks_seq (commit_refresh db now obj).1 = tasks_seq db
  ∧ users (commit_refresh db now obj).1 = users db.
Proof. unfold commit_refresh. by case_decide. Qed.

(** The two branches of [update_task]. *)
Lemma update_task_miss db task_id task user_id now :
  crud.get_task db task_id user_id = None →
  crud.update_task db task_id task user_id now = (db, None).
Proof. intros Hget. unfold crud.update_task. by rewrite Hget. Qed.

Lemma update_task_hit db task_id task user_id now t :
  crud.get_task db task_id user_id = Some t →
  let obj := foldl crud.setattr t (model_dump_exclude_unset task) in
  crud.update_task db task_id task user_id now
  = ((commit_refresh db now obj).1, Some (commit_refresh db now obj).2).
Proof.
  intros Hget. unfold crud.update_task. rewrite Hget. cbn zeta.
  by destruct (commit_refresh db now _).
Qed.

Lemma update_task_ok db task_id task user_id now :
  store.store_ok db →
  store.store_ok (crud.update_task db task_id task user_id now).1.
Proof.
  intros Hok.
  destruct (crud.get_task db task_id user_id) as [db_task|] eqn:Hget;
    [|by rewrite update_task_miss].
  rewrite (update_task_hit _ _ _ _ _ _ Hget). cbn [fst].
  destruct Hok as [Hkey Hseq]. rewrite Forall_forall in Hseq.
  split; [|apply Forall_forall].
  - by rewrite commit_refresh_ids.
  - intros r Hr.
    assert (Task.id r ∈ Task.id <$> tasks db) as Hid.
    { rewrite <- (commit_refresh_ids db now
                    (foldl crud.setattr db_task (model_dump_exclude_unset task))).
      by apply list_elem_of_fmap_2. }
    apply list_elem_of_fmap in Hid as (r0 & -> & Hr0).
    destruct (commit_refresh_seq db now
                (foldl crud.setattr db_task (model_dump_exclude_unset task)))
      as [-> _].
    by apply Hseq.
Qed.

Lemma delete_task_ok db task_id user_id :
  store.store_ok db → store.store_ok (crud.delete_task db task_id user_id).1.
Proof.
  intros Hok. unfold crud.delete_task.
  destruct (crud.get_task db task_id user_id) as [db_task|]; [|done].
  destruct Hok as [Hkey Hseq]. rewrite Forall_forall in Hseq.
  split; [|apply Forall_forall]; cbn.
  - clear Hseq. induction (tasks db) as [|x rows IH]; [done|].
    rewrite fmap_cons in Hkey. apply NoDup_cons in Hkey as [Hfresh Hkey].
    rewrite filter_cons. case_decide; [|by apply IH].
    rewrite fmap_cons. apply NoDup_cons. split; [|by apply IH].
    intros Hx. apply Hfresh.
    apply list_elem_of_fmap in Hx as (r & -> & Hr).
    apply list_elem_of_filter in Hr as [_ Hr]. by apply list_elem_of_fmap_2.
  - intros r Hr. apply list_elem_of_filter in Hr as [_ Hr]. by apply Hseq.
Qed.

Lemma serve_ok db timed :
  store.store_ok db → store.store_ok (store.serve db timed).
Proof.
  destruct timed as [now []]; cbn [store.serve]; intros Hok; try done.
  - by apply create_task_ok.
  - by apply update_task_ok.
  - by apply delete_task_ok.
Qed.

Lemma serve_all_ok rs db :
  store.store_ok db → store.store_ok (store.serve_all db rs).
Proof.
  revert db. induction rs as [|timed rs IH]; intros db Hok; [done|].
  apply IH. by apply serve_ok.
Qed.

End invariant.

(** ** Ownership isolation *)

Section isolation.
Implicit Types (db : Session) (t r : Task.t).

(** A listing only ever contains rows of the owner asked for, whatever the
    offset and the limit. *)
Lemma get_tasks_owner db user_id skip limit r :
  r ∈ crud.get_tasks db user_id skip limit →
  r ∈ tasks db ∧ Task.user_id r = user_id.
Proof.
  unfold crud.get_tasks, models.limit, models.offset. intros Hr.
  assert (r ∈ filter (λ t, Task.user_id t = user_id) (tasks db)) as Hin.
  { case_decide.
    - by eapply subseteq_drop.
    - by eapply subseteq_drop, subseteq_take. }
  apply list_elem_of_filter in Hin as [Howner Hrow]. by split.
Qed.

Lemma get_task_foreign db t other :
  store.store_ok db → t ∈ tasks db → Task.user_id t ≠ other →
  crud.get_task db (Task.id t) other = None.
Proof.
  intros Hok Hin Hother. apply get_task_None. intros r Hr [Hid Howner].
  apply (key_unique db t r Hok Hin Hr) in Hid. congruence.
Qed.

Lemma get_task_absent db task_id user_id :
  (∀ r, r ∈ tasks db → Task.id r ≠ task_id) →
  crud.get_task db task_id user_id = None.
Proof.
  intros Habsent. apply get_task_None. intros r Hr [Hid _].
  by apply (Habsent r Hr).
Qed.

Lemma delete_task_miss db task_id user_id :
  crud.get_task db task_id user_id = None →
  crud.delete_task db task_id user_id = (db, None).
Proof. intros Hget. unfold crud.delete_task. by rewrite Hget. Qed.

End isolation.

(** C1.  Ownership isolation.  Let [t] be a task of owner [A] in a store
    whose [id] column is a primary key, and let [B ≠ A].  Then for [B], on
    [t]'s identifier: [get_task] finds nothing; [update_task], with any
    payload at any time, and [delete_task] find nothing and leave the store
    as it was; no page of [get_tasks], for any offset and limit, contains
    [t].  Each of these results is the very result [B] gets for an
    identifier that no task has, and the router turns both into the same
    404 [Task not found]. *)
Theorem ownership_isolation (db : Session) (t : Task.t) (A B : Z) :
  store.store_ok db → t ∈ tasks db → Task.user_id t = A → A ≠ B →
  crud.get_task db (Task.id t) B = None
  ∧ (∀ task now, crud.update_task db (Task.id t) task B now = (db, None))
  ∧ crud.delete_task db (Task.id t) B = (db, None)
  ∧ (∀ skip limit, t ∉ crud.get_tasks db B skip limit)
  ∧ (∀ absent, (∀ r, r ∈ tasks db → Task.id r ≠ absent) →
       crud.get_task db absent B = crud.get_task db (Task.id t) B
       ∧ (∀ task now, crud.update_task db absent task B now
                      = crud.update_task db (Task.id t) task B now)
       ∧ crud.delete_task db absent B = crud.delete_task db (Task.id t) B)
  ∧ (∀ current_user, User.id current_user = B →
       tasks_router.read_task db current_user (Task.id t)
       = Raise tasks_router.task_not_found
       ∧ (∀ task now, tasks_router.update_task db current_user (Task.id t) task now
                      = (db, Raise tasks_router.task_not_found))
       ∧ tasks_router.delete_task db current_user (Task.id t)
         = (db, Raise tasks_router.task_not_found)).
Proof.
  intros Hok Hin HA HAB.
  assert (crud.get_task db (Task.id t) B = None) as Hget
    by (apply get_task_foreign; [done..|congruence]).
  split; [done|].
  split; [intros; by apply update_task_miss|].
  split; [by apply delete_task_miss|].
  split.
  { intros skip limit Hlist. apply get_tasks_owner in Hlist as [_ Howner].
    congruence. }
  split.
  - intros absent Habsent.
    pose proof (get_task_absent db absent B Habsent) as Hgone.
    split; [congruence|]. split.
    + intros task now. by rewrite !update_task_miss.
    + by rewrite !delete_task_miss.
  - intros current_user <-.
    unfold tasks_router.read_task, tasks_router.update_task,
      tasks_router.delete_task.
    rewrite Hget, delete_task_miss by done. split; [done|]. split; [|done].
    intros task now. by rewrite update_task_miss.
Qed.

Lemma ownership_isolation_witness :
  crud.get_task samples.db 1 2 = None
  ∧ crud.delete_task samples.db 1 2 = (samples.db, None)
  ∧ samples.milk ∉ crud.get_tasks samples.db 2 0 100.
Proof.
  destruct (ownership_isolation samples.db samples.milk 1 2)
    as (Hget & _ & Hdel & Hlist & _).
  - by_evaluation.
  - by left.
  - reflexivity.
  - lia.
  - split; [exact Hget|]. split; [exact Hdel|]. apply Hlist.
Defined.

(** ** Update *)

Section update.
Implicit Types (db : Session) (t r : Task.t) (task : TaskUpdate.t).

(** The row that the caller's task has become is in the table after the
    update. *)
Lemma commit_refresh_row db now obj t :
  t ∈ tasks db → Task.id t = Task.id obj →
  (commit_refresh db now obj).2 ∈ tasks (commit_refresh db now obj).1.
Proof.
  intros Hin Hid. unfold commit_refresh. case_decide; [done|].
  cbn. apply list_elem_of_fmap. exists t.
  split; [|done]. by rewrite decide_True.
Qed.

(** The rows with another identifier stay as they are. *)
Lemma commit_refresh_others db now obj r :
  r ∈ tasks db → Task.id r ≠ Task.id obj →
  r ∈ tasks (commit_refresh db now obj).1.
Proof.
  intros Hin Hid. unfold commit_refresh. case_decide; [done|].
  cbn. apply list_elem_of_fmap. exists r.
  split; [|done]. by rewrite decide_False.
Qed.

(** What comes back from the reload: the object's attributes, with the
    timestamp moved only when an UPDATE was emitted. *)
Lemma commit_refresh_returns db now obj :
  store.business (commit_refresh db now obj).2 = store.business obj
  ∧ Task.id (commit_refresh db now obj).2 = Task.id obj
  ∧ Task.user_id (commit_refresh db now obj).2 = Task.user_id obj
  ∧ Task.created_at (commit_refresh db now obj).2 = Task.created_at obj
  ∧ ((obj ∈ tasks db ∧ commit_refresh db now obj = (db, obj))
     ∨ ((obj ∉ tasks db) ∧ Task.updated_at (commit_refresh db now obj).2 = now)).
Proof.
  unfold commit_refresh. case_decide; cbn.
  - repeat split; try done. by left.
  - repeat split; try done. by right.
Qed.

Lemma update_task_result db task_id task user_id now t :
  crud.get_task db task_id user_id = Some t →
  ∃ db' t',
    crud.update_task db task_id task user_id now = (db', Some t')
    ∧ store.business t'
      = store.business (foldl crud.setattr t (model_dump_exclude_unset task))
    ∧ Task.id t' = Task.id t
    ∧ Task.user_id t' = Task.user_id t
    ∧ Task.created_at t' = Task.created_at t
    ∧ ((foldl crud.setattr t (model_dump_exclude_unset task) ∈ tasks db
        ∧ db' = db
        ∧ t' = foldl crud.setattr t (model_dump_exclude_unset task))
       ∨ ((foldl crud.setattr t (model_dump_exclude_unset task) ∉ tasks db)
          ∧ Task.updated_at t' = now))
    ∧ t' ∈ tasks db'
    ∧ (∀ r, r ∈ tasks db → Task.id r ≠ task_id → r ∈ tasks db').
Proof.
  intros Hget. pose proof (update_task_hit db task_id task user_id now t Hget) as Hupd.
  cbn zeta in Hupd. apply get_task_Some in Hget as (Hin & Hid & Howner).
  destruct (foldl_setattr_frame (model_dump_exclude_unset task) t)
    as (Hid' & Howner' & Hcreated & _).
  set (obj := foldl crud.setattr t (model_dump_exclude_unset task)) in *.
  clearbody obj.
  destruct (commit_refresh_returns db now obj)
    as (Hbusiness & Hrid & Hrowner & Hrcreated & Hstamp).
  eexists _, _. split; [exact Hupd|].
  split; [done|]. split; [congruence|]. split; [congruence|].
  split; [congruence|]. split.
  { destruct Hstamp as [[Hclean Heq]|[Hdirty Hnow]]; [left|by right].
    rewrite Heq. done. }
  split.
  - by apply (commit_refresh_row db now obj t).
  - intros r Hr Hne. apply commit_refresh_others; [done|]. congruence.
Qed.

(** Under the primary key, the object after the loop is a row of the
    table only if it is the row it came from, attribute for attribute. *)
Lemma unchanged_object db t obj :
  store.store_ok db → t ∈ tasks db → Task.id obj = Task.id t →
  obj ∈ tasks db ↔ obj = t.
Proof.
  intros Hok Hin Hid. split; [|by intros ->].
  intros Hobj. by apply (key_unique db t obj).
Qed.

End update.

(** The timestamps follow the clock: along requests served in the order of
    the clock, no row is stamped later than the last request. *)
Section clock.
Implicit Types (db : Session) (r : Task.t).

Lemma stamped_by_later since now db :
  since ≤ now → store.stamped_by since db → store.stamped_by now db.
Proof.
  intros Hle Hdb. unfold store.stamped_by.
  apply (Forall_impl _ _ _ Hdb). intros r Hr. lia.
Qed.

Lemma serve_stamped since now db (req : store.request) :
  since ≤ now → store.stamped_by since db →
  store.stamped_by now (store.serve db (now, req)).
Proof.
  intros Hle Hdb. pose proof (stamped_by_later since now db Hle Hdb) as Hnow.
  destruct req as [owner task| | |owner task_id task|owner task_id];
    cbn [store.serve]; try done.
  - apply Forall_app. split; [done|]. apply Forall_singleton. cbn. lia.
  - destruct (crud.get_task db task_id owner) as [t|] eqn:Hget;
      [|by rewrite update_task_miss].
    rewrite (update_task_hit _ _ _ _ _ _ Hget).
    apply get_task_Some in Hget as (Hin & _ & _).
    destruct (foldl_setattr_frame (model_dump_exclude_unset task) t)
      as (_ & _ & Hcreated & _).
    set (obj := foldl crud.setattr t (model_dump_exclude_unset task)) in *.
    clearbody obj. cbn [fst]. unfold commit_refresh.
    destruct (decide (obj ∈ tasks db)) as [Hclean|Hdirty]; [done|].
    cbn [fst flush_update tasks].
    unfold store.stamped_by in *. rewrite Forall_forall in Hnow.
    apply Forall_fmap, Forall_forall. intros r Hr. cbn. case_decide; [|by apply Hnow].
    cbn. rewrite Hcreated. specialize (Hnow t Hin). lia.
  - unfold crud.delete_task. destruct (crud.get_task db task_id owner); [|done].
    unfold store.stamped_by in *. rewrite Forall_forall in Hnow.
    apply Forall_forall. intros r Hr. cbn in Hr.
    apply list_elem_of_filter in Hr as [_ Hr]. by apply Hnow.
Qed.

Lemma serve_all_stamped rs since db :
  store.chronological since rs → store.stamped_by since db →
  store.stamped_by (store.clock since rs) (store.serve_all db rs).
Proof.
  revert since db. induction rs as [|[now req] rs IH]; intros since db Hrs Hdb;
    [done|].
  destruct Hrs as [Hle Hrs]. cbn. apply IH; [done|].
  by apply (serve_stamped since).
Qed.

End clock.

(** Against C4 as stated: an update with an empty field set, at time 30,
    of a task whose updated-timestamp is 10 returns the task with the
    timestamp still at 10 and leaves the store as it is; the timestamp is
    not refreshed. *)
Lemma empty_update_keeps_timestamp :
  crud.update_task samples.db 1 samples.no_fields 1 30
  = (samples.db, Some samples.milk)
  ∧ Task.updated_at samples.milk = 10
  ∧ Task.updated_at samples.milk ≠ 30.
Proof. split; [by vm_compute|]. split; [done|]. by vm_compute. Qed.

(** C4, amended.  Partial update.  Let [t] be the caller's task, in a
    store with a primary key.  [update_task] with any payload returns a
    task [t'] in which each of [title], [description], [status] and
    [priority] has the payload's value if the payload set that field and
    [t]'s value otherwise; identifier, owner and creation timestamp are
    [t]'s.  When a business field changes value, the updated-timestamp is
    the time of the update, hence not before the previous one whenever the
    clock has not gone back (as in a store whose rows were all stamped by
    an earlier time).  When none changes, and so with no field set, the
    task returned is [t], timestamp included, and the store is as it was.
    The row returned is what the store then holds for the caller, and the
    other rows are untouched. *)
Theorem update_task_partial (db : Session) (task_id user_id now : Z)
    (task : TaskUpdate.t) (t : Task.t) :
  store.store_ok db →
  crud.get_task db task_id user_id = Some t →
  ∃ db' t',
    crud.update_task db task_id task user_id now = (db', Some t')
    ∧ Task.title t'
      = store.chosen task f_title (TaskUpdate.title task) (Task.title t)
    ∧ Task.description t'
      = store.chosen task f_description (TaskUpdate.description task)
          (Task.description t)
    ∧ Task.status t'
      = store.chosen task f_status (TaskUpdate.status task) (Task.status t)
    ∧ Task.priority t'
      = store.chosen task f_priority (TaskUpdate.priority task) (Task.priority t)
    ∧ Task.id t' = Task.id t
    ∧ Task.user_id t' = Task.user_id t
    ∧ Task.created_at t' = Task.created_at t
    ∧ (store.business t' ≠ store.business t → Task.updated_at t' = now)
    ∧ (store.business t' = store.business t → t' = t ∧ db' = db)
    ∧ (Task.updated_at t ≤ now → Task.updated_at t ≤ Task.updated_at t')
    ∧ (∀ since, store.stamped_by since db → since ≤ now →
         Task.updated_at t ≤ Task.updated_at t' ∧ store.stamped_by now db')
    ∧ (TaskUpdate.model_fields_set task = [] → t' = t ∧ db' = db)
    ∧ crud.get_task db' task_id user_id = Some t'
    ∧ (∀ r, r ∈ tasks db → Task.id r ≠ task_id → r ∈ tasks db').
Proof.
  intros Hok Hget.
  destruct (update_task_result db task_id task user_id now t Hget)
    as (db' & t' & Hupd & Hbusiness & Hid & Howner & Hcreated & Hstamp & Hrow & Hrest).
  destruct (foldl_setattr_dump t task) as (Htitle & Hdescr & Hstatus & Hprio).
  destruct (foldl_setattr_frame (model_dump_exclude_unset task) t)
    as (Hoid & Hoowner & Hocreated & Houpdated).
  cbn zeta in Htitle, Hdescr, Hstatus, Hprio.
  pose proof (get_task_Some db task_id user_id t Hget) as (Hin & Htid & Huid).
  set (obj := foldl crud.setattr t (model_dump_exclude_unset task)) in *.
  (* the object after the loop is [t] exactly when no business field moved *)
  assert (obj ∈ tasks db ↔ store.business obj = store.business t) as Hsame.
  { rewrite (unchanged_object db t obj Hok Hin Hoid). split; [by intros ->|].
    intros Heq. by apply Task_eq. }
  assert (Task.updated_at t' = now ∨ (t' = t ∧ db' = db)) as Hcases.
  { destruct Hstamp as [(Hclean & -> & ->)|[_ Hnow]]; [right|by left].
    split; [|done]. apply Task_eq; try done. by apply Hsame. }
  assert (Task.updated_at t ≤ now → Task.updated_at t ≤ Task.updated_at t')
    as Hmono.
  { intros Hle. destruct Hcases as [->|[-> _]]; lia. }
  assert (store.business t' = store.business t → t' = t ∧ db' = db) as Hkeep.
  { intros Heq. destruct Hstamp as [(Hclean & -> & ->)|[Hdirty _]].
    - split; [|done]. apply Task_eq; try done.
    - destruct Hdirty. apply Hsame. congruence. }
  injection Hbusiness as Ht Hd Hs Hp.
  exists db', t'. split; [done|].
  split; [congruence|]. split; [congruence|].
  split; [congruence|]. split; [congruence|].
  split; [done|]. split; [done|]. split; [done|]. split.
  { intros Hmoved. destruct Hcases as [Hnow|[-> _]]; [done|]. by destruct Hmoved. }
  split; [done|]. split; [done|]. split.
  { intros since Hstamped Hle. split.
    - unfold store.stamped_by in Hstamped. rewrite Forall_forall in Hstamped.
      specialize (Hstamped t Hin). apply Hmono. lia.
    - replace db' with (store.serve db (now, store.Update user_id task_id task))
        by (cbn; by rewrite Hupd).
      by apply (serve_stamped since). }
  split.
  { intros Hnone. apply Hkeep. unfold store.business, store.chosen in *.
    rewrite Ht, Hd, Hs, Hp, Htitle, Hdescr, Hstatus, Hprio, Hnone.
    by rewrite !decide_False by apply not_elem_of_nil. }
  split; [|done].
  rewrite <- Htid, <- Huid, <- Hid, <- Howner. apply get_task_owned; [|done].
  replace db' with (crud.update_task db task_id task user_id now).1
    by (by rewrite Hupd).
  by apply update_task_ok.
Qed.

Lemma update_task_partial_witness :
  ∃ db' t',
    crud.update_task samples.db 1 samples.status_done 1 30 = (db', Some t')
    ∧ Task.title t' = Some "Buy milk"
    ∧ Task.status t' = Some DONE
    ∧ Task.updated_at t' = 30.
Proof.
  destruct (update_task_partial samples.db 1 1 30 samples.status_done samples.milk)
    as (db' & t' & Hupd & Htitle & _ & Hstatus & _ & _ & _ & _ & Hstamp & _).
  - by_evaluation.
  - reflexivity.
  - exists db', t'. split; [exact Hupd|]. split; [exact Htitle|].
    split; [exact Hstatus|]. apply Hstamp.
    unfold store.business. rewrite Htitle, Hstatus. by intros [=].
Defined.

(** C9.  [update_task] writes a supplied [title] or [description] as it
    is: whatever value the payload sets, the empty string and an explicit
    [None] included, is the value of the returned and stored task.  So the
    payload [{"title": ""}] on the caller's task yields a task whose title
    is the empty string, although [TaskCreate] rejects an empty title. *)
Theorem update_task_verbatim (db : Session) (task_id user_id now : Z)
    (task : TaskUpdate.t) (t : Task.t) :
  crud.get_task db task_id user_id = Some t →
  ∃ db' t',
    crud.update_task db task_id task user_id now = (db', Some t')
    ∧ t' ∈ tasks db'
    ∧ (f_title ∈ TaskUpdate.model_fields_set task →
         Task.title t' = TaskUpdate.title task)
    ∧ (f_description ∈ TaskUpdate.model_fields_set task →
         Task.description t' = TaskUpdate.description task)
    ∧ (task = samples.empty_title → Task.title t' = Some "")
    ∧ (∀ description priority, TaskCreate.validate "" description priority = None).
Proof.
  intros Hget.
  destruct (update_task_result db task_id task user_id now t Hget)
    as (db' & t' & Hupd & Hbusiness & _ & _ & _ & _ & Hrow & _).
  destruct (foldl_setattr_dump t task) as (Htitle & Hdescr & _).
  cbn zeta in Htitle, Hdescr. injection Hbusiness as Ht Hd _ _.
  unfold store.chosen in *.
  exists db', t'. split; [done|]. split; [done|].
  split. { intros Hset. by rewrite Ht, Htitle, decide_True. }
  split. { intros Hset. by rewrite Hd, Hdescr, decide_True. }
  split; [|done].
  intros ->. rewrite Ht, Htitle. reflexivity.
Qed.

Lemma update_task_verbatim_witness :
  ∃ db' t',
    crud.update_task samples.db 1 samples.empty_title 1 30 = (db', Some t')
    ∧ Task.title t' = Some "".
Proof.
  destruct (update_task_verbatim samples.db 1 1 30 samples.empty_title samples.milk)
    as (db' & t' & Hupd & _ & _ & _ & Hempty & _).
  - reflexivity.
  - exists db', t'. split; [exact Hupd|]. by apply Hempty.
Defined.

(** ** Owners never change *)

Section owners.
Implicit Types (db : Session) (t r : Task.t).

(** The counter of identifiers never goes back. *)
Lemma serve_seq db timed : tasks_seq db ≤ tasks_seq (store.serve db timed).
Proof.
  destruct timed as [now [owner task| | |owner task_id task|owner task_id]];
    cbn [store.serve]; try done.
  - cbn. lia.
  - destruct (crud.get_task db task_id owner) as [t|] eqn:Hget;
      [|by rewrite update_task_miss].
    rewrite (update_task_hit _ _ _ _ _ _ Hget). cbn [fst].
    by destruct (commit_refresh_seq db now
                   (foldl crud.setattr t (model_dump_exclude_unset task)))
      as [-> _].
  - unfold crud.delete_task.
    by destruct (crud.get_task db task_id owner).
Qed.

(** An update changes no identifier and no owner, in any row. *)
Lemma update_task_origin db task_id task owner now r' :
  r' ∈ tasks (crud.update_task db task_id task owner now).1 →
  ∃ r, r ∈ tasks db ∧ Task.id r' = Task.id r ∧ Task.user_id r' = Task.user_id r.
Proof.
  intros Hr'. destruct (crud.get_task db task_id owner) as [t|] eqn:Hget.
  - rewrite (update_task_hit _ _ _ _ _ _ Hget) in Hr'. cbn [fst] in Hr'.
    apply get_task_Some in Hget as (Hin & _ & _).
    destruct (foldl_setattr_frame (model_dump_exclude_unset task) t)
      as (Hid & Howner & _).
    set (obj := foldl crud.setattr t (model_dump_exclude_unset task)) in *.
    clearbody obj. unfold commit_refresh in Hr'.
    destruct (decide (obj ∈ tasks db)) as [Hclean|Hdirty]; [by exists r'|].
    cbn in Hr'. apply list_elem_of_fmap in Hr' as (r & -> & Hr). case_decide.
    + by exists t.
    + by exists r.
  - rewrite update_task_miss in Hr' by done. by exists r'.
Qed.

(** A row of the store after one request is either a row that was there,
    with the same identifier and the same owner, or a row with a new
    identifier. *)
Lemma serve_origin db timed r' :
  r' ∈ tasks (store.serve db timed) →
  (∃ r, r ∈ tasks db ∧ Task.id r' = Task.id r ∧ Task.user_id r' = Task.user_id r)
  ∨ tasks_seq db ≤ Task.id r'.
Proof.
  destruct timed as [now [owner task| | |owner task_id task|owner task_id]];
    cbn [store.serve]; intros Hr'.
  - cbn in Hr'. apply elem_of_app in Hr' as [Hr'|Hr'].
    + left. by exists r'.
    + right. apply list_elem_of_singleton in Hr'. by subst r'.
  - left. by exists r'.
  - left. by exists r'.
  - left. by apply (update_task_origin db task_id task owner now).
  - left. exists r'. split; [|done].
    unfold crud.delete_task in Hr'.
    destruct (crud.get_task db task_id owner); [|done].
    cbn in Hr'. by apply list_elem_of_filter in Hr' as [_ Hr'].
Qed.

Lemma serve_all_seq rs db : tasks_seq db ≤ tasks_seq (store.serve_all db rs).
Proof.
  revert db. induction rs as [|timed rs IH]; intros db; [done|].
  cbn. etrans; [apply (serve_seq db timed)|apply IH].
Qed.

Lemma serve_all_origin rs db r' :
  r' ∈ tasks (store.serve_all db rs) →
  (∃ r, r ∈ tasks db ∧ Task.id r' = Task.id r ∧ Task.user_id r' = Task.user_id r)
  ∨ tasks_seq db ≤ Task.id r'.
Proof.
  revert db. induction rs as [|timed rs IH]; intros db Hr'.
  - left. by exists r'.
  - apply IH in Hr' as [(r1 & Hr1 & Hid & Howner)|Hnew].
    + apply serve_origin in Hr1 as [(r & Hr & Hid' & Howner')|Hnew].
      * left. exists r. split; [done|]. split; congruence.
      * right. lia.
    + right. pose proof (serve_seq db timed). lia.
Qed.

End owners.

(** C7.  The owner of a task is set at creation and never changes.
    [create_task] gives the new task the owner it is called with.  The task
    that [update_task] returns, whatever the payload, has the identifier and
    the owner of the task it was called on.  And over any sequence of
    requests, a task of the store that is still there afterwards (same
    identifier) has the owner it had. *)
Theorem owner_immutable (db : Session) (t : Task.t) :
  store.store_ok db → t ∈ tasks db →
  (∀ rs t', t' ∈ tasks (store.serve_all db rs) →
            Task.id t' = Task.id t → Task.user_id t' = Task.user_id t)
  ∧ (∀ task now db' t',
       crud.update_task db (Task.id t) task (Task.user_id t) now = (db', Some t') →
       Task.id t' = Task.id t ∧ Task.user_id t' = Task.user_id t
       ∧ ∀ r', r' ∈ tasks db' →
           ∃ r, r ∈ tasks db ∧ Task.id r' = Task.id r
                ∧ Task.user_id r' = Task.user_id r)
  ∧ (∀ task owner now,
       Task.user_id (crud.create_task db task owner now).2 = owner
       ∧ Task.id (crud.create_task db task owner now).2 ≠ Task.id t).
Proof.
  intros Hok Hin. split; [|split].
  - intros rs t' Hin' Hid.
    destruct Hok as [Hkey Hseq]. rewrite Forall_forall in Hseq.
    apply serve_all_origin in Hin' as [(r & Hr & Hid' & Howner)|Hnew].
    + rewrite Howner. f_equal.
      apply (key_unique db t r); [by split; [|apply Forall_forall]|done..|congruence].
    + specialize (Hseq t Hin). lia.
  - intros task now db' t' Hupd.
    pose proof (get_task_owned db t Hok Hin) as Hget.
    destruct (update_task_result db _ task _ now t Hget)
      as (db1 & t1 & Hupd1 & _ & Hid & Howner & _).
    rewrite Hupd in Hupd1. injection Hupd1 as <- <-.
    split; [done|]. split; [done|].
    intros r' Hr'.
    apply (update_task_origin db (Task.id t) task (Task.user_id t) now).
    by rewrite Hupd.
  - intros task owner now. split; [done|]. cbn.
    destruct Hok as [_ Hseq]. rewrite Forall_forall in Hseq.
    specialize (Hseq t Hin). lia.
Qed.

Lemma owner_immutable_witness :
  Forall (λ t', Task.id t' = 1 → Task.user_id t' = 1)
    (tasks (store.serve_all samples.db
              [(30, store.Update 1 1 samples.status_done);
               (31, store.Delete 2 2);
               (32, store.Create 2 {| TaskCreate.title := "Call back";
                                      TaskCreate.description := None;
                                      TaskCreate.priority := LOW |})])).
Proof.
  destruct (owner_immutable samples.db samples.milk) as (Hseq & _).
  - by_evaluation.
  - by left.
  - apply Forall_forall. intros t' Hin Hid. exact (Hseq _ t' Hin Hid).
Defined.

(** ** Create and delete *)



(** C6.  Delete.  For a task [t] of the caller, [delete_task] returns [t]
    as it was and leaves a store in which no row has [t]'s identifier (the
    row is gone, not marked) while every other row is still there; a
    [get_task] that follows, by the same owner with the same identifier,
    finds nothing, and the router answers 404. *)
Theorem delete_task_hard (db : Session) (task_id owner : Z) (t : Task.t) :
  crud.get_task db task_id owner = Some t →
  ∃ db',
    crud.delete_task db task_id owner = (db', Some t)
    ∧ (∀ r, r ∈ tasks db' → Task.id r ≠ task_id)
    ∧ (∀ r, r ∈ tasks db' ↔ r ∈ tasks db ∧ Task.id r ≠ task_id)
    ∧ crud.get_task db' task_id owner = None
    ∧ (∀ skip limit, t ∉ crud.get_tasks db' owner skip limit)
    ∧ (∀ current_user, User.id current_user = owner →
         tasks_router.read_task db' current_user task_id
         = Raise tasks_router.task_not_found)
    ∧ crud.delete_task db' task_id owner = (db', None).
Proof.
  intros Hget. exists (delete_commit db t).
  assert (crud.delete_task db task_id owner = (delete_commit db t, Some t)) as Hdel
    by (unfold crud.delete_task; by rewrite Hget).
  apply get_task_Some in Hget as (Hin & Hid & Howner).
  assert (∀ r, r ∈ tasks (delete_commit db t) ↔ r ∈ tasks db ∧ Task.id r ≠ task_id)
    as Hrows.
  { intros r. cbn. rewrite list_elem_of_filter, Hid. tauto. }
  assert (crud.get_task (delete_commit db t) task_id owner = None) as Hgone.
  { apply get_task_absent. intros r Hr. by apply Hrows in Hr as [_ Hr]. }
  split; [done|]. split; [intros r Hr; by apply Hrows in Hr as [_ Hr]|].
  split; [done|]. split; [done|]. split; [|split].
  - intros skip limit Hlist. apply get_tasks_owner in Hlist as [Hrow _].
    apply Hrows in Hrow as [_ Hne]. done.
  - intros current_user <-. unfold tasks_router.read_task. by rewrite Hgone.
  - by apply delete_task_miss.
Qed.

Lemma delete_task_hard_witness :
  ∃ db',
    crud.delete_task samples.db 1 1 = (db', Some samples.milk)
    ∧ crud.get_task db' 1 1 = None.
Proof.
  destruct (delete_task_hard samples.db 1 1 samples.milk)
    as (db' & Hdel & _ & _ & Hget & _).
  - reflexivity.
  - exists db'. split; [exact Hdel|exact Hget].
Defined.

(** ** Credentials *)

(** C10.  [authenticate_user] fails in one way.  When the email is not
    registered, and when it is registered but the password does not verify
    against the stored hash, the result is the same [None]; and these are
    the only two ways to get [None]. *)
Theorem authenticate_user_uniform (pwd_context_verify : string → string → bool)
    (db : Session) (email password : string) :
  (crud.get_user_by_email db email = None →
     crud.authenticate_user pwd_context_verify db email password = None)
  ∧ (∀ user, crud.get_user_by_email db email = Some user →
       pwd_context_verify password (User.hashed_password user) = false →
       crud.authenticate_user pwd_context_verify db email password = None)
  ∧ (crud.authenticate_user pwd_context_verify db email password = None ↔
       crud.get_user_by_email db email = None
       ∨ ∃ user, crud.get_user_by_email db email = Some user
                 ∧ pwd_context_verify password (User.hashed_password user) = false).
Proof.
  unfold crud.authenticate_user, crud.verify_password.
  destruct (crud.get_user_by_email db email) as [user|]; cycle 1.
  { split; [done|]. split; [done|]. split; [by left|done]. }
  destruct (pwd_context_verify password (User.hashed_password user)) eqn:Hpw; cbn.
  - split; [done|]. split.
    + intros u Hu Hpw'. injection Hu as <-. congruence.
    + split; [done|].
      intros [Hnone|(u & Hu & Hpw')]; [done|]. injection Hu as <-. congruence.
  - split; [done|]. split; [done|]. split; [|done].
    intros _. right. by exists user.
Qed.

Lemma authenticate_user_uniform_witness :
  crud.authenticate_user samples.toy_verify samples.db "nobody@example.com" "pw12345678"
  = None
  ∧ crud.authenticate_user samples.toy_verify samples.db "a@example.com" "wrong-password"
    = None.
Proof.
  split.
  - destruct (authenticate_user_uniform samples.toy_verify samples.db
                "nobody@example.com" "pw12345678") as (Hunknown & _).
    apply Hunknown. reflexivity.
  - destruct (authenticate_user_uniform samples.toy_verify samples.db
                "a@example.com" "wrong-password") as (_ & Hwrong & _).
    apply (Hwrong samples.alice); reflexivity.
Defined.

(** ** Tokens *)

Section tokens.
Import jose.
Implicit Types (c : gmap string value) (tok : token).

Lemma to_intdate_other c time_claim k :
  time_claim ≠ k → to_intdate c time_claim !! k = c !! k.
Proof.
  intros Hne. unfold to_intdate.
  destruct (c !! time_claim) as [[]|]; try done. by rewrite lookup_insert_ne.
Qed.

Lemma to_intdate_datetime c time_claim dt :
  c !! time_claim = Some (VDatetime dt) →
  to_intdate c time_claim !! time_claim = Some (VInt (timegm dt)).
Proof. intros Hc. unfold to_intdate. by rewrite Hc, lookup_insert_eq. Qed.

(** What [encode] produces: the algorithm in the header, the tag under the
    key, the expiry in whole seconds, every other claim as given. *)
Lemma encode_spec c key algorithm dt :
  c !! "exp" = Some (VDatetime dt) →
  ∃ t, encode c key algorithm = Compact t
       ∧ header_alg t = algorithm
       ∧ tag t = sign key algorithm (claims t)
       ∧ claims t !! "exp" = Some (VInt (timegm dt))
       ∧ ∀ k, k ∉ ["exp"; "iat"; "nbf"] → claims t !! k = c !! k.
Proof.
  intros Hexp. eexists. split; [reflexivity|]. cbn.
  split; [done|]. split; [done|]. split.
  - rewrite !to_intdate_other by done. by apply to_intdate_datetime.
  - intros k Hk. rewrite !not_elem_of_cons in Hk. destruct Hk as (? & ? & ? & _).
    by rewrite !to_intdate_other.
Qed.

(** [encode] adds no claim. *)
Lemma to_intdate_absent c time_claim k :
  c !! k = None → to_intdate c time_claim !! k = None.
Proof.
  intros Hk. unfold to_intdate.
  destruct (c !! time_claim) as [v|] eqn:Hc; [|done].
  destruct v; try done. rewrite lookup_insert_ne; [done|]. congruence.
Qed.

(** The claims of a token encoded for one subject and an expiry. *)
Lemma subject_claims (sub : string) (expire : Z) :
  foldl to_intdate (<["exp" := VDatetime expire]> {[ "sub" := VStr sub ]})
    ["exp"; "iat"; "nbf"]
  = <["exp" := VInt (timegm expire)]> {[ "sub" := VStr sub ]}.
Proof.
  cbn [foldl]. unfold to_intdate at 3. rewrite lookup_insert_eq, insert_insert_eq.
  unfold to_intdate.
  rewrite !lookup_insert_ne, !lookup_singleton_ne by done. done.
Qed.

(** The checks on such claims: only the expiry can fail. *)
Lemma validate_subject_claims (sub : string) (exp utcnow : Z) :
  validate_claims (<["exp" := VInt exp]> {[ "sub" := VStr sub ]}) utcnow
  = if decide (exp < timegm utcnow) then Raise (JWT ExpiredSignatureError)
    else Ok ().
Proof.
  unfold validate_claims, validate_iat, validate_nbf, validate_exp, validate_aud,
    validate_sub, validate_jti, validate_at_hash, int_claim.
  rewrite lookup_insert_eq.
  rewrite !lookup_insert_ne, !lookup_singleton_ne, lookup_singleton_eq by done.
  cbn. by case_decide.
Qed.

(** [decode] accepts a token signed under the key with an allowed
    algorithm, for one subject, exactly while its expiry second has not
    passed. *)
Lemma decode_signed t key algorithm exp (sub : string) utcnow :
  header_alg t = algorithm →
  tag t = sign key algorithm (claims t) →
  claims t = <["exp" := VInt exp]> {[ "sub" := VStr sub ]} →
  decode (Compact t) key [algorithm] utcnow
  = if decide (exp < timegm utcnow) then Raise (JWT ExpiredSignatureError)
    else Ok (claims t).
Proof.
  intros Halg Htag Hclaims. unfold decode.
  rewrite Halg. rewrite decide_True by (by left).
  rewrite decide_True by done.
  rewrite Hclaims, validate_subject_claims. by case_decide.
Qed.

(** All the checks pass when each of them passes. *)
Lemma then_Ok (r k : result raised unit) :
  then_ r k = Ok () ↔ r = Ok () ∧ k = Ok ().
Proof. destruct r as [[]|]; cbn; [|split; [done|by intros [? _]]]. tauto. Qed.

Lemma validate_claims_Ok c utcnow :
  validate_claims c utcnow = Ok () ↔
  validate_iat c = Ok ()
  ∧ validate_nbf c utcnow = Ok ()
  ∧ validate_exp c utcnow = Ok ()
  ∧ validate_aud c = Ok ()
  ∧ validate_sub c = Ok ()
  ∧ validate_jti c = Ok ()
  ∧ validate_at_hash c = Ok ().
Proof. unfold validate_claims. by rewrite !then_Ok. Qed.

(** The checks raise an exception of another class than [JWTError] only
    through [int] on a time claim. *)
Lemma validate_claims_other c utcnow e :
  validate_claims c utcnow = Raise (Other e) →
  int_claim c "iat" = Raise (Other e)
  ∨ int_claim c "nbf" = Raise (Other e)
  ∨ int_claim c "exp" = Raise (Other e).
Proof.
  unfold validate_claims, validate_iat, validate_nbf, validate_exp, validate_aud,
    validate_sub, validate_jti, validate_at_hash.
  destruct (int_claim c "iat") as [?|e1]; cbn; [|intros [= ->]; by left].
  destruct (int_claim c "nbf") as [[nbf|]|e2]; cbn;
    [case_decide; cbn; [done|]| |intros [= ->]; right; by left].
  - destruct (int_claim c "exp") as [[exp|]|e3]; cbn;
      [case_decide; cbn; [done|]| |intros [= ->]; right; by right].
    + destruct (c !! "aud"); cbn; [done|].
      destruct (c !! "sub") as [[]|]; cbn; try done;
        destruct (c !! "jti") as [[]|]; cbn; try done;
        by destruct (c !! "at_hash").
    + destruct (c !! "aud"); cbn; [done|].
      destruct (c !! "sub") as [[]|]; cbn; try done;
        destruct (c !! "jti") as [[]|]; cbn; try done;
        by destruct (c !! "at_hash").
  - destruct (int_claim c "exp") as [[exp|]|e3]; cbn;
      [case_decide; cbn; [done|]| |intros [= ->]; right; by right].
    + destruct (c !! "aud"); cbn; [done|].
      destruct (c !! "sub") as [[]|]; cbn; try done;
        destruct (c !! "jti") as [[]|]; cbn; try done;
        by destruct (c !! "at_hash").
    + destruct (c !! "aud"); cbn; [done|].
      destruct (c !! "sub") as [[]|]; cbn; try done;
        destruct (c !! "jti") as [[]|]; cbn; try done;
        by destruct (c !! "at_hash").
Qed.

End tokens.

Section current_user.
Import jose.

(** What it takes for [decode] to return a payload. *)
Lemma decode_Ok tok key algorithms utcnow payload :
  decode tok key algorithms utcnow = Ok payload ↔
  ∃ t, tok = Compact t
       ∧ payload = claims t
       ∧ header_alg t ∈ algorithms
       ∧ tag t = sign key (header_alg t) (claims t)
       ∧ validate_claims (claims t) utcnow = Ok ().
Proof.
  unfold decode. split.
  - destruct tok as [raw|t]; [done|].
    destruct (decide (header_alg t ∈ algorithms)) as [Halg|]; [|done].
    destruct (decide (tag t = sign key (header_alg t) (claims t))) as [Htag|];
      [|done].
    destruct (validate_claims (claims t) utcnow) as [[]|] eqn:Hall; [|done].
    intros [= <-]. by exists t.
  - intros (t & -> & -> & Halg & Htag & Hall).
    rewrite decide_True by done. rewrite decide_True by done. by rewrite Hall.
Qed.

(** An integer expiry that passed the check is not past. *)
Lemma validate_exp_Ok c utcnow exp :
  validate_exp c utcnow = Ok () → c !! "exp" = Some (VInt exp) →
  timegm utcnow ≤ exp.
Proof.
  unfold validate_exp, int_claim. intros Hok Hc. rewrite Hc in Hok.
  cbn in Hok. case_decide; [done|lia].
Qed.

(** An integer not-before that passed the check has come. *)
Lemma validate_nbf_Ok c utcnow nbf :
  validate_nbf c utcnow = Ok () → c !! "nbf" = Some (VInt nbf) →
  nbf ≤ timegm utcnow.
Proof.
  unfold validate_nbf, int_claim. intros Hok Hc. rewrite Hc in Hok.
  cbn in Hok. case_decide; [done|lia].
Qed.

(** What it takes for [verify_token] to return token data. *)
Lemma verify_token_Ok tok exc utcnow td :
  auth.verify_token tok exc utcnow = Ok td ↔
  ∃ t s, tok = Compact t
         ∧ header_alg t = auth.ALGORITHM
         ∧ tag t = sign auth.SECRET_KEY auth.ALGORITHM (claims t)
         ∧ validate_claims (claims t) utcnow = Ok ()
         ∧ claims t !! "sub" = Some (VStr s)
         ∧ td = {| TokenData.email := Some s |}.
Proof.
  unfold auth.verify_token. split.
  - destruct (decode tok auth.SECRET_KEY [auth.ALGORITHM] utcnow)
      as [payload|[err|err]] eqn:Hdecode; [|done|done].
    apply decode_Ok in Hdecode as (t & -> & -> & Halg & Htag & Hall).
    apply list_elem_of_singleton in Halg.
    destruct (claims t !! "sub") as [[s| | | | | | |]|] eqn:Hsub; try done.
    intros [= <-]. exists t, s. by rewrite Halg in Htag.
  - intros (t & s & -> & Halg & Htag & Hall & Hsub & ->).
    assert (decode (Compact t) auth.SECRET_KEY [auth.ALGORITHM] utcnow
            = Ok (claims t)) as ->.
    { apply decode_Ok. exists t. rewrite Halg.
      split; [done|]. split; [done|]. split; [by left|done]. }
    by rewrite Hsub.
Qed.

(** The one way for [get_current_user] to return a user. *)
Lemma get_current_user_Ok tok db utcnow user :
  auth.get_current_user tok db utcnow = Ok user →
  ∃ t email,
    tok = Compact t
    ∧ header_alg t = auth.ALGORITHM
    ∧ tag t = sign auth.SECRET_KEY auth.ALGORITHM (claims t)
    ∧ (∀ exp, claims t !! "exp" = Some (VInt exp) → timegm utcnow ≤ exp)
    ∧ claims t !! "sub" = Some (VStr email)
    ∧ crud.get_user_by_email db email = Some user.
Proof.
  unfold auth.get_current_user.
  destruct (auth.verify_token tok auth.credentials_exception utcnow)
    as [td|e] eqn:Hverify; [|done].
  apply verify_token_Ok in Hverify as (t & s & -> & Halg & Htag & Hall & Hsub & ->).
  apply validate_claims_Ok in Hall as (_ & _ & Hexp & _).
  cbn. destruct (crud.get_user_by_email db s) as [u|] eqn:Huser; [|done].
  intros [= <-]. exists t, s.
  split; [done|]. split; [done|]. split; [done|]. split; [|done].
  intros exp. by apply validate_exp_Ok.
Qed.

(** What [verify_token] can raise: the exception it was given, or the
    exception of another class that [jwt.decode] raised. *)
Lemma verify_token_raises tok exc utcnow e :
  auth.verify_token tok exc utcnow = Raise e →
  e = HTTP exc
  ∨ decode tok auth.SECRET_KEY [auth.ALGORITHM] utcnow = Raise (Other e).
Proof.
  unfold auth.verify_token.
  destruct (decode tok auth.SECRET_KEY [auth.ALGORITHM] utcnow)
    as [payload|[err|err]] eqn:Hdecode.
  - apply decode_Ok in Hdecode as (t & _ & -> & _ & _ & Hall).
    apply validate_claims_Ok in Hall as (_ & _ & _ & _ & Hsub & _).
    unfold validate_sub in Hsub.
    destruct (claims t !! "sub") as [[]|]; try done; intros [= <-]; by left.
  - intros [= <-]. by left.
  - intros [= <-]. by right.
Qed.

End current_user.

(** What [get_current_user] can raise: the one 401 exception, or the
    exception of another class that [jwt.decode] raised. *)
Lemma get_current_user_raises tok db utcnow e :
  auth.get_current_user tok db utcnow = Raise e →
  e = HTTP auth.credentials_exception
  ∨ jose.decode tok auth.SECRET_KEY [auth.ALGORITHM] utcnow = Raise (jose.Other e).
Proof.
  unfold auth.get_current_user.
  destruct (auth.verify_token tok auth.credentials_exception utcnow)
    as [td|e'] eqn:Hverify.
  - destruct (TokenData.email td ≫= crud.get_user_by_email db); [done|].
    intros [= <-]. by left.
  - intros [= <-]. by apply verify_token_raises in Hverify.
Qed.

(** C2.  The authentication error is not uniform.  The token whose payload
    is [{"sub": "a@example.com", "exp": null}], signed with the configured
    key and algorithm, makes [verify_token] and [get_current_user] raise a
    [TypeError], at every time and over every store: [int(None)] inside
    [jwt.decode] is not a [JWTError], so [except JWTError] does not turn it
    into the 401 exception.  A malformed token, at the same time and over
    the same store, raises the 401 [Could not validate credentials]
    exception, so the two failures are told apart. *)
Theorem null_expiry_not_credentials_error (db : Session) (utcnow : Z) :
  auth.verify_token samples.null_expiry_token auth.credentials_exception utcnow
  = Raise TypeError
  ∧ auth.get_current_user samples.null_expiry_token db utcnow = Raise TypeError
  ∧ auth.get_current_user (jose.Malformed "invalid_token_here") db utcnow
    = Raise (HTTP auth.credentials_exception)
  ∧ auth.get_current_user samples.null_expiry_token db utcnow
    ≠ auth.get_current_user (jose.Malformed "invalid_token_here") db utcnow.
Proof.
  assert (auth.verify_token samples.null_expiry_token auth.credentials_exception
            utcnow = Raise TypeError) as Hverify.
  { unfold auth.verify_token, jose.decode, samples.null_expiry_token.
    cbn [jose.header_alg jose.claims jose.tag].
    rewrite decide_True by (by left). rewrite decide_True by done.
    unfold jose.validate_claims, jose.validate_iat, jose.validate_nbf,
      jose.validate_exp, jose.int_claim, samples.null_expiry_claims.
    rewrite lookup_insert_eq.
    rewrite !lookup_insert_ne, !lookup_singleton_ne by done. done. }
  split; [done|]. unfold auth.get_current_user. rewrite Hverify. done.
Qed.

(** ** Issuing and verifying *)

Section roundtrip.
Import jose.

(** The claims of the token that [create_access_token] returns. *)
Lemma create_access_token_spec (data : gmap string value)
    (expires_delta : option Z) (utcnow : Z) :
  let expire :=
    if auth.truthy expires_delta then utcnow + default 0 expires_delta
    else utcnow + auth.timedelta_minutes 15 in
  ∃ t, auth.create_access_token data expires_delta utcnow = Compact t
       ∧ header_alg t = auth.ALGORITHM
       ∧ tag t = sign auth.SECRET_KEY auth.ALGORITHM (claims t)
       ∧ claims t !! "exp" = Some (VInt (timegm expire))
       ∧ ∀ k, k ∉ ["exp"; "iat"; "nbf"] → claims t !! k = data !! k.
Proof.
  cbn zeta. unfold auth.create_access_token.
  edestruct encode_spec as (t & -> & Halg & Htag & Hexp & Hrest);
    [apply lookup_insert_eq|].
  exists t. split; [done|]. split; [done|]. split; [done|]. split; [done|].
  intros k Hk. rewrite (Hrest k Hk). apply lookup_insert_ne.
  intros <-. apply Hk. by left.
Qed.

(** The token that [create_access_token] returns for one subject. *)
Lemma create_access_token_subject (sub : string) (expires_delta : option Z)
    (utcnow : Z) :
  let expire :=
    if auth.truthy expires_delta then utcnow + default 0 expires_delta
    else utcnow + auth.timedelta_minutes 15 in
  ∃ t, auth.create_access_token {[ "sub" := VStr sub ]} expires_delta utcnow
       = Compact t
       ∧ header_alg t = auth.ALGORITHM
       ∧ tag t = sign auth.SECRET_KEY auth.ALGORITHM (claims t)
       ∧ claims t = <["exp" := VInt (timegm expire)]> {[ "sub" := VStr sub ]}.
Proof.
  cbn zeta. unfold auth.create_access_token, encode. eexists.
  split; [reflexivity|]. cbn [header_alg tag claims].
  split; [done|]. split; [done|]. apply subject_claims.
Qed.

(** Verifying a token issued for [sub]: it is a matter of whole seconds. *)
Lemma issue_verify (sub : string) (ttl issued utcnow : Z) exc :
  ttl ≠ 0 →
  auth.verify_token
    (auth.create_access_token {[ "sub" := VStr sub ]} (Some ttl) issued)
    exc utcnow
  = if decide (timegm (issued + ttl) < timegm utcnow)
    then Raise (HTTP exc)
    else Ok {| TokenData.email := Some sub |}.
Proof.
  intros Httl.
  destruct (create_access_token_subject sub (Some ttl) issued)
    as (t & -> & Halg & Htag & Hclaims).
  cbn in Hclaims. rewrite bool_decide_eq_true_2 in Hclaims by done.
  unfold auth.verify_token.
  rewrite (decode_signed t _ _ _ sub utcnow Halg Htag Hclaims).
  case_decide; [done|].
  by rewrite Hclaims, lookup_insert_ne, lookup_singleton_eq.
Qed.

Lemma timegm_mono (a b : Z) : a ≤ b → timegm a ≤ timegm b.
Proof. intros Hab. unfold timegm. by apply Z.div_le_mono. Qed.

Lemma timegm_next_second (a : Z) : timegm (a + 1000000) = timegm a + 1.
Proof.
  unfold timegm. replace (a + 1000000) with (a + 1 * 1000000) by lia.
  by rewrite Z.div_add.
Qed.

End roundtrip.

(** Against C3 as stated: a token issued at time 0 with a ttl of one second
    is still accepted at time 0 + ttl, and half a second later, so
    verification does not fail "at or after issuance-time + ttl". *)
Lemma token_accepted_at_expiry :
  let tok := auth.create_access_token
               {[ "sub" := jose.VStr "a@example.com" ]} (Some 1000000) 0 in
  0 < 1000000
  ∧ 0 + 1000000 ≤ 1000000
  ∧ auth.verify_token tok auth.credentials_exception 1000000
    = Ok {| TokenData.email := Some "a@example.com" |}
  ∧ auth.verify_token tok auth.credentials_exception 1500000
    = Ok {| TokenData.email := Some "a@example.com" |}
  ∧ auth.verify_token tok auth.credentials_exception 1000000
    ≠ Raise (HTTP auth.credentials_exception).
Proof. cbn zeta. split; [lia|]. split; [lia|]. by vm_compute. Qed.

(** C3, amended.  For every identity claim [sub] and every [ttl > 0], a
    token issued at [issued] verifies and yields [sub] at any time strictly
    before [issued + ttl], and more generally exactly when the whole second
    of the verification time is not after the whole second of
    [issued + ttl]; it is rejected with the authentication error exactly when
    the whole second of the verification time is after that of
    [issued + ttl], in particular from [issued + ttl] plus one second on. *)
Theorem token_roundtrip_expiry (sub : string) (ttl issued utcnow : Z)
    (exc : HTTPException) :
  0 < ttl →
  let tok := auth.create_access_token {[ "sub" := jose.VStr sub ]} (Some ttl) issued in
  (utcnow < issued + ttl →
     auth.verify_token tok exc utcnow = Ok {| TokenData.email := Some sub |})
  ∧ (jose.timegm utcnow ≤ jose.timegm (issued + ttl) ↔
       auth.verify_token tok exc utcnow = Ok {| TokenData.email := Some sub |})
  ∧ (jose.timegm (issued + ttl) < jose.timegm utcnow ↔
       auth.verify_token tok exc utcnow = Raise (HTTP exc))
  ∧ (issued + ttl + 1000000 ≤ utcnow →
       auth.verify_token tok exc utcnow = Raise (HTTP exc)).
Proof.
  intros Httl. cbn zeta. rewrite issue_verify by lia.
  split; [|split; [|split]].
  - intros Hbefore. rewrite decide_False; [done|].
    pose proof (timegm_mono utcnow (issued + ttl)). lia.
  - case_decide; split; (done || lia).
  - case_decide; split; (done || lia).
  - intros Hafter. rewrite decide_True; [done|].
    pose proof (timegm_mono _ _ Hafter) as Hle.
    rewrite timegm_next_second in Hle. lia.
Qed.

Lemma token_roundtrip_expiry_witness :
  auth.verify_token
    (auth.create_access_token {[ "sub" := jose.VStr "a@example.com" ]}
       (Some 1800000000) 5000000)
    auth.credentials_exception 1804999999
  = Ok {| TokenData.email := Some "a@example.com" |}.
Proof.
  destruct (token_roundtrip_expiry "a@example.com" 1800000000 5000000 1804999999
              auth.credentials_exception) as (Hbefore & _).
  - lia.
  - apply Hbefore. lia.
Defined.

(** C8.  Default lifetime.  With no [expires_delta], the claims that
    [create_access_token] hands to [jwt.encode] carry
    [exp = utcnow + 15 minutes]; the token's [exp] is that instant in whole
    seconds, 900 seconds after the second of [utcnow]; every claim other
    than the three time claims is the caller's.  The token is signed under
    [SECRET_KEY] with [ALGORITHM], which are fixed: HS256 and the constant
    secret.  The login endpoint asks for [ACCESS_TOKEN_EXPIRE_MINUTES = 30]
    minutes instead, and its token expires 1800 seconds after the second of
    [utcnow]. *)
Theorem default_token_lifetime (data : gmap string jose.value) (utcnow : Z) :
  auth.create_access_token data None utcnow
  = jose.encode (<["exp" := jose.VDatetime (utcnow + auth.timedelta_minutes 15)]> data)
      auth.SECRET_KEY auth.ALGORITHM
  ∧ (∃ t, auth.create_access_token data None utcnow = jose.Compact t
          ∧ jose.header_alg t = "HS256"
          ∧ jose.tag t
            = jose.sign "your-secret-key-here-change-in-production" "HS256"
                (jose.claims t)
          ∧ jose.claims t !! "exp"
            = Some (jose.VInt (jose.timegm (utcnow + auth.timedelta_minutes 15)))
          ∧ jose.claims t !! "exp" = Some (jose.VInt (jose.timegm utcnow + 900))
          ∧ ∀ k, k ∉ ["exp"; "iat"; "nbf"] → jose.claims t !! k = data !! k)
  ∧ auth.ACCESS_TOKEN_EXPIRE_MINUTES = 30
  ∧ (∀ pwd_context_verify db username password user,
       crud.authenticate_user pwd_context_verify db username password = Some user →
       ∃ t, auth.login pwd_context_verify db username password utcnow
            = Ok (jose.Compact t)
            ∧ jose.Compact t
              = auth.create_access_token {[ "sub" := jose.VStr (User.email user) ]}
                  (Some (auth.timedelta_minutes 30)) utcnow
            ∧ jose.claims t !! "sub" = Some (jose.VStr (User.email user))
            ∧ jose.claims t !! "exp" = Some (jose.VInt (jose.timegm utcnow + 1800))).
Proof.
  assert (∀ m, jose.timegm (utcnow + m * 60 * 1000000) = jose.timegm utcnow + m * 60)
    as Hminutes by (intros m; unfold jose.timegm; by rewrite Z.div_add).
  split; [done|]. split; [|split; [done|]].
  - destruct (create_access_token_spec data None utcnow)
      as (t & Hcreate & Halg & Htag & Hexp & Hrest).
    cbn in Hexp. exists t. split; [done|]. split; [done|]. split; [done|].
    split; [done|]. split; [|done].
    rewrite Hexp. unfold auth.timedelta_minutes. by rewrite Hminutes.
  - intros pwd_context_verify db username password user Hauth.
    unfold auth.login. rewrite Hauth.
    destruct (create_access_token_spec {[ "sub" := jose.VStr (User.email user) ]}
                (Some (auth.timedelta_minutes auth.ACCESS_TOKEN_EXPIRE_MINUTES)) utcnow)
      as (t & Hcreate & Halg & Htag & Hexp & Hrest).
    exists t. split; [by rewrite Hcreate|]. split; [by rewrite <- Hcreate|].
    split.
    + rewrite Hrest; [by rewrite lookup_singleton_eq|].
      rewrite !not_elem_of_cons. repeat split; try done. apply not_elem_of_nil.
    + rewrite Hexp. do 2 f_equal.
      change (jose.timegm (utcnow + 30 * 60 * 1000000) = jose.timegm utcnow + 1800).
      by rewrite (Hminutes 30).
Qed.

Lemma default_token_lifetime_witness :
  ∃ t, auth.create_access_token {[ "sub" := jose.VStr "a@example.com" ]} None 5000000
       = jose.Compact t
       ∧ jose.claims t !! "exp" = Some (jose.VInt 905).
Proof.
  destruct (default_token_lifetime {[ "sub" := jose.VStr "a@example.com" ]} 5000000)
    as (_ & (t & Hcreate & _ & _ & _ & Hexp & _) & _).
  exists t. split; [exact Hcreate|exact Hexp].
Defined.

(** ** Worked examples *)

(** The scenario of the specification: create "Buy milk", mark it done,
    delete it, look it up. *)
Example scenario_buy_milk :
  let '(db1, t1) :=
    crud.create_task store.empty
      {| TaskCreate.title := "Buy milk"; TaskCreate.description := None;
         TaskCreate.priority := MEDIUM |} 1 100 in
  let '(db2, r2) := crud.update_task db1 (Task.id t1) samples.status_done 1 200 in
  let '(db3, r3) := crud.delete_task db2 (Task.id t1) 1 in
  Task.status t1 = Some TODO
  ∧ Task.priority t1 = Some MEDIUM
  ∧ Task.status <$> r2 = Some (Some DONE)
  ∧ Task.title <$> r2 = Some (Some "Buy milk")
  ∧ Task.updated_at <$> r2 = Some 200
  ∧ r3 = r2
  ∧ crud.get_task db3 (Task.id t1) 1 = None.
Proof. by vm_compute. Qed.

(** Pages of a listing. *)
Example listing_pages :
  crud.get_tasks samples.db 1 0 100 = [samples.milk]
  ∧ crud.get_tasks samples.db 1 1 100 = []
  ∧ crud.get_tasks samples.db 2 0 0 = []
  ∧ crud.get_tasks samples.db 2 (-1) (-1) = [samples.report].
Proof. by vm_compute. Qed.

(** A body without priority is a medium-priority request; an empty or an
    overlong title is refused. *)
Example validate_bodies :
  TaskCreate.validate "Buy milk" None None
  = Some {| TaskCreate.title := "Buy milk"; TaskCreate.description := None;
            TaskCreate.priority := MEDIUM |}
  ∧ TaskCreate.validate "" (Some "Empty title test") None = None
  ∧ TaskCreate.validate "Buy milk" None (Some HIGH)
    = Some {| TaskCreate.title := "Buy milk"; TaskCreate.description := None;
              TaskCreate.priority := HIGH |}.
Proof. by vm_compute. Qed.

(** A token issued at second 5 for one second: accepted during second 6,
    rejected from second 7; a token under another key is rejected. *)
Example token_seconds :
  let tok := auth.create_access_token
               {[ "sub" := jose.VStr "a@example.com" ]} (Some 1000000) 5000000 in
  auth.verify_token tok auth.credentials_exception 6999999
  = Ok {| TokenData.email := Some "a@example.com" |}
  ∧ auth.verify_token tok auth.credentials_exception 7000000
    = Raise (HTTP auth.credentials_exception)
  ∧ auth.verify_token
      (jose.encode {[ "sub" := jose.VStr "a@example.com" ]} "another-key" "HS256")
      auth.credentials_exception 0
    = Raise (HTTP auth.credentials_exception).
Proof. by vm_compute. Qed.

(** The body [{}]: nothing to write, the row and its timestamps stay; the
    body [{"status": "done"}] writes the row and stamps it. *)
Example empty_update :
  crud.update_task samples.db 1 samples.no_fields 1 30
  = (samples.db, Some samples.milk)
  ∧ (crud.update_task samples.db 1 samples.status_done 1 30).2
    = Some {| Task.id := 1; Task.title := Some "Buy milk"; Task.description := None;
              Task.status := Some DONE; Task.priority := Some MEDIUM;
              Task.user_id := 1; Task.created_at := 10; Task.updated_at := 30 |}
  ∧ (crud.update_task samples.db 1 samples.no_fields 2 30).2 = None.
Proof. by vm_compute. Qed.

(** * Further properties of the code *)

(** ** Token lifetime and subject *)

Section lifetime.
Import jose.

(** The instant [create_access_token] computes for the expiry. *)
Lemma issue_verify_any (sub : string) (expires_delta : option Z)
    (issued utcnow : Z) exc :
  let expire :=
    if auth.truthy expires_delta then issued + default 0 expires_delta
    else issued + auth.timedelta_minutes 15 in
  auth.verify_token
    (auth.create_access_token {[ "sub" := VStr sub ]} expires_delta issued)
    exc utcnow
  = if decide (timegm expire < timegm utcnow)
    then Raise (HTTP exc)
    else Ok {| TokenData.email := Some sub |}.
Proof.
  cbn zeta.
  destruct (create_access_token_subject sub expires_delta issued)
    as (t & -> & Halg & Htag & Hclaims).
  cbn zeta in Hclaims.
  unfold auth.verify_token.
  rewrite (decode_signed t _ _ _ sub utcnow Halg Htag Hclaims).
  case_decide; [done|].
  by rewrite Hclaims, lookup_insert_ne, lookup_singleton_eq.
Qed.

End lifetime.

(** X1.  An [exp] that the caller puts in [data] is ignored: the token is
    the one issued for [data] without it, so a far-away [exp] in [data] does
    not keep the token alive past the lifetime asked for. *)
Theorem create_access_token_overrides_exp (data : gmap string jose.value)
    (v : jose.value) (expires_delta : option Z) (issued : Z) :
  auth.create_access_token (<["exp" := v]> data) expires_delta issued
  = auth.create_access_token data expires_delta issued
  ∧ auth.create_access_token (delete "exp" data) expires_delta issued
    = auth.create_access_token data expires_delta issued
  ∧ (∀ sub ttl utcnow exc,
       0 < ttl → issued + ttl + 1000000 ≤ utcnow →
       auth.verify_token
         (auth.create_access_token
            (<["exp" := v]> {[ "sub" := jose.VStr sub ]}) (Some ttl) issued)
         exc utcnow
       = Raise (HTTP exc)).
Proof.
  assert (∀ d, auth.create_access_token (<["exp" := v]> d) expires_delta issued
               = auth.create_access_token d expires_delta issued) as Hignored.
  { intros d. unfold auth.create_access_token. by rewrite insert_insert_eq. }
  split; [done|]. split.
  - unfold auth.create_access_token. by rewrite insert_delete_eq.
  - intros sub ttl utcnow exc Httl Hafter.
    assert (auth.create_access_token
              (<["exp" := v]> {[ "sub" := jose.VStr sub ]}) (Some ttl) issued
            = auth.create_access_token {[ "sub" := jose.VStr sub ]} (Some ttl) issued)
      as -> by (unfold auth.create_access_token; by rewrite insert_insert_eq).
    rewrite issue_verify by lia. rewrite decide_True; [done|].
    apply timegm_mono in Hafter. rewrite timegm_next_second in Hafter. lia.
Qed.

(** X2.  A zero [expires_delta] is taken as none: the token is the one
    issued with the 15-minute default, and it is accepted until 15 minutes
    after issuance. *)
Theorem zero_ttl_is_default (sub : string) (issued utcnow : Z)
    (exc : HTTPException) :
  utcnow < issued + auth.timedelta_minutes 15 →
  auth.create_access_token {[ "sub" := jose.VStr sub ]} (Some 0) issued
  = auth.create_access_token {[ "sub" := jose.VStr sub ]} None issued
  ∧ auth.verify_token
      (auth.create_access_token {[ "sub" := jose.VStr sub ]} (Some 0) issued)
      exc utcnow
    = Ok {| TokenData.email := Some sub |}.
Proof.
  intros Hbefore. split; [done|].
  rewrite issue_verify_any. cbn [auth.truthy]. rewrite bool_decide_eq_false_2 by lia.
  rewrite decide_False; [done|].
  pose proof (timegm_mono utcnow (issued + auth.timedelta_minutes 15)). lia.
Qed.

Lemma zero_ttl_is_default_witness :
  auth.verify_token
    (auth.create_access_token {[ "sub" := jose.VStr "a@example.com" ]} (Some 0) 0)
    auth.credentials_exception 899999999
  = Ok {| TokenData.email := Some "a@example.com" |}.
Proof.
  destruct (zero_ttl_is_default "a@example.com" 0 899999999 auth.credentials_exception)
    as (_ & Hverify).
  - reflexivity.
  - exact Hverify.
Defined.

(** X3.  A negative [expires_delta] of a second or more gives a token that
    is rejected from the moment it is issued. *)
Theorem negative_ttl_rejected (sub : string) (ttl issued utcnow : Z)
    (exc : HTTPException) :
  ttl ≤ -1000000 → issued ≤ utcnow →
  auth.verify_token
    (auth.create_access_token {[ "sub" := jose.VStr sub ]} (Some ttl) issued)
    exc utcnow
  = Raise (HTTP exc).
Proof.
  intros Httl Hnow. rewrite issue_verify by lia. rewrite decide_True; [done|].
  assert (issued + ttl + 1000000 ≤ utcnow) as Hle by lia.
  apply timegm_mono in Hle. rewrite timegm_next_second in Hle. lia.
Qed.

Lemma negative_ttl_rejected_witness :
  auth.verify_token
    (auth.create_access_token {[ "sub" := jose.VStr "a@example.com" ]}
       (Some (-1000000)) 5000000)
    auth.credentials_exception 5000000
  = Raise (HTTP auth.credentials_exception).
Proof.
  apply (negative_ttl_rejected "a@example.com" (-1000000) 5000000 5000000); lia.
Defined.

(** X4.  [verify_token] returns token data only for a well-formed token
    with the configured algorithm, a tag that verifies under the secret and
    a string subject, which the data then carries; an integer expiry of such
    a token is not past, an integer not-before has come, and the token has
    no audience and no access-token hash.  In the other direction, a token
    with the configured algorithm, a verifying tag and a string subject is
    accepted when its expiry is absent or an integer not yet past, its
    not-before absent or an integer that has come, its issued-at absent or
    an integer, its token identifier absent or a string, and it has no
    audience and no access-token hash. *)
Theorem verify_token_accepts (tok : jose.token) (exc : HTTPException)
    (utcnow : Z) :
  (∀ td, auth.verify_token tok exc utcnow = Ok td →
     ∃ t s, tok = jose.Compact t
            ∧ jose.header_alg t = auth.ALGORITHM
            ∧ jose.tag t = jose.sign auth.SECRET_KEY auth.ALGORITHM (jose.claims t)
            ∧ jose.claims t !! "sub" = Some (jose.VStr s)
            ∧ td = {| TokenData.email := Some s |}
            ∧ (∀ e, jose.claims t !! "exp" = Some (jose.VInt e) →
                    jose.timegm utcnow ≤ e)
            ∧ (∀ n, jose.claims t !! "nbf" = Some (jose.VInt n) →
                    n ≤ jose.timegm utcnow)
            ∧ jose.claims t !! "aud" = None
            ∧ jose.claims t !! "at_hash" = None)
  ∧ (∀ t s,
       tok = jose.Compact t →
       jose.header_alg t = auth.ALGORITHM →
       jose.tag t = jose.sign auth.SECRET_KEY auth.ALGORITHM (jose.claims t) →
       jose.claims t !! "sub" = Some (jose.VStr s) →
       (jose.claims t !! "exp" = None
        ∨ ∃ e, jose.claims t !! "exp" = Some (jose.VInt e)
               ∧ jose.timegm utcnow ≤ e) →
       (jose.claims t !! "nbf" = None
        ∨ ∃ n, jose.claims t !! "nbf" = Some (jose.VInt n)
               ∧ n ≤ jose.timegm utcnow) →
       (jose.claims t !! "iat" = None
        ∨ ∃ n, jose.claims t !! "iat" = Some (jose.VInt n)) →
       (jose.claims t !! "jti" = None
        ∨ ∃ j, jose.claims t !! "jti" = Some (jose.VStr j)) →
       jose.claims t !! "aud" = None →
       jose.claims t !! "at_hash" = None →
       auth.verify_token tok exc utcnow = Ok {| TokenData.email := Some s |}).
Proof.
  split.
  - intros td Hverify.
    apply verify_token_Ok in Hverify as (t & s & -> & Halg & Htag & Hall & Hsub & ->).
    apply validate_claims_Ok in Hall as (_ & Hnbf & Hexp & Haud & _ & _ & Hhash).
    exists t, s. split; [done|]. split; [done|]. split; [done|].
    split; [done|]. split; [done|].
    split; [intros e; by apply validate_exp_Ok|].
    split; [intros n; by apply validate_nbf_Ok|].
    unfold jose.validate_aud, jose.validate_at_hash in *.
    split; [by destruct (jose.claims t !! "aud")|].
    by destruct (jose.claims t !! "at_hash").
  - intros t s -> Halg Htag Hsub Hexp Hnbf Hiat Hjti Haud Hhash.
    apply verify_token_Ok. exists t, s.
    split; [done|]. split; [done|]. split; [done|]. split; [|done].
    apply validate_claims_Ok.
    unfold jose.validate_iat, jose.validate_nbf, jose.validate_exp,
      jose.validate_aud, jose.validate_sub, jose.validate_jti,
      jose.validate_at_hash, jose.int_claim.
    rewrite Hsub, Haud, Hhash.
    split; [by destruct Hiat as [->|(n & ->)]|].
    split; [destruct Hnbf as [->|(n & -> & Hn)]; [done|]; cbn;
            by rewrite decide_False by lia|].
    split; [destruct Hexp as [->|(e & -> & He)]; [done|]; cbn;
            by rewrite decide_False by lia|].
    split; [done|]. split; [done|]. split; [|done].
    by destruct Hjti as [->|(j & ->)].
Qed.

Lemma verify_token_accepts_witness :
  auth.verify_token
    (jose.encode {[ "sub" := jose.VStr "a@example.com" ]}
       auth.SECRET_KEY auth.ALGORITHM)
    auth.credentials_exception 0
  = Ok {| TokenData.email := Some "a@example.com" |}.
Proof.
  destruct (verify_token_accepts
              (jose.encode {[ "sub" := jose.VStr "a@example.com" ]}
                 auth.SECRET_KEY auth.ALGORITHM)
              auth.credentials_exception 0) as [_ Haccepts].
  eapply Haccepts; try reflexivity; by left.
Defined.

(** X5.  A token issued for [data] without a string [sub] is of no use:
    [verify_token] never returns token data for it.  When [data] is JSON
    data (it holds no [datetime]) and has no [iat] and no [nbf], what
    [verify_token] raises is the exception it was given. *)
Theorem token_without_subject_rejected (data : gmap string jose.value)
    (expires_delta : option Z) (issued utcnow : Z) (exc : HTTPException) :
  (∀ s, data !! "sub" ≠ Some (jose.VStr s)) →
  (∀ td, auth.verify_token (auth.create_access_token data expires_delta issued)
           exc utcnow ≠ Ok td)
  ∧ ((∀ k dt, data !! k ≠ Some (jose.VDatetime dt)) →
     data !! "iat" = None → data !! "nbf" = None →
     auth.verify_token (auth.create_access_token data expires_delta issued)
       exc utcnow
     = Raise (HTTP exc)).
Proof.
  intros Hsub.
  destruct (create_access_token_spec data expires_delta issued)
    as (t & Hcreate & _ & _ & Hexp & Hrest).
  assert (∀ td, auth.verify_token (auth.create_access_token data expires_delta issued)
                  exc utcnow ≠ Ok td) as Hnever.
  { intros td Hverify.
    apply verify_token_Ok in Hverify as (t' & s & Htok & _ & _ & _ & Hsub' & _).
    rewrite Hcreate in Htok. injection Htok as <-.
    rewrite Hrest in Hsub'; [by destruct (Hsub s)|].
    rewrite !not_elem_of_cons. repeat split; try done. apply not_elem_of_nil. }
  split; [done|]. intros _ Hiat Hnbf.
  destruct (auth.verify_token (auth.create_access_token data expires_delta issued)
              exc utcnow) as [td|e] eqn:Hverify; [by destruct (Hnever td)|].
  apply verify_token_raises in Hverify as [->|Hother]; [done|].
  exfalso. rewrite Hcreate in Hother. unfold jose.decode in Hother.
  destruct (decide (jose.header_alg t ∈ [auth.ALGORITHM])); [|done].
  destruct (decide (jose.tag t
                    = jose.sign auth.SECRET_KEY (jose.header_alg t) (jose.claims t)));
    [|done].
  destruct (jose.validate_claims (jose.claims t) utcnow) as [|[|e']] eqn:Hall;
    try done.
  injection Hother as ->.
  assert (∀ k, k ≠ "exp" → data !! k = None → jose.claims t !! k = None) as Habsent.
  { intros k Hk Hdata. unfold auth.create_access_token, jose.encode in Hcreate.
    injection Hcreate as <-. cbn [jose.claims foldl].
    do 3 apply to_intdate_absent. by rewrite lookup_insert_ne. }
  apply validate_claims_other in Hall as [Hint|[Hint|Hint]];
    unfold jose.int_claim in Hint.
  - by rewrite (Habsent "iat") in Hint.
  - by rewrite (Habsent "nbf") in Hint.
  - by rewrite Hexp in Hint.
Qed.

Lemma token_without_subject_rejected_witness :
  auth.verify_token
    (auth.create_access_token {[ "email" := jose.VStr "a@example.com" ]}
       (Some 1800000000) 0)
    auth.credentials_exception 1
  = Raise (HTTP auth.credentials_exception).
Proof.
  apply (token_without_subject_rejected {[ "email" := jose.VStr "a@example.com" ]}).
  - intros s. by vm_compute.
  - intros k dt [_ Hvalue]%lookup_singleton_Some. discriminate.
  - reflexivity.
  - reflexivity.
Defined.

(** ** Users *)

Section users.
Implicit Types (db : Session) (u : User.t).

Lemma get_user_by_email_Some db email u :
  crud.get_user_by_email db email = Some u →
  u ∈ users db ∧ User.email u = email.
Proof.
  intros Hhead. apply head_Some_elem_of in Hhead.
  apply list_elem_of_filter in Hhead as [Hemail Hin]. done.
Qed.

Lemma get_user_by_email_None db email :
  crud.get_user_by_email db email = None ↔
  ∀ u, u ∈ users db → User.email u ≠ email.
Proof.
  unfold crud.get_user_by_email. rewrite head_None. split.
  - intros Hnil u Hu Hemail.
    by apply (filter_nil_not_elem_of _ _ u Hnil Hemail).
  - intros Hall. induction (users db) as [|x rows IH]; [done|].
    rewrite filter_cons_False.
    + apply IH. intros u Hu. apply Hall. by right.
    + apply Hall. by left.
Qed.

(** The generated identifier is larger than every identifier in use. *)
Lemma next_user_id_fresh db u : u ∈ users db → User.id u < next_user_id db.
Proof.
  unfold next_user_id. induction (users db) as [|x rows IH]; intros Hu.
  - by apply not_elem_of_nil in Hu.
  - cbn. apply elem_of_cons in Hu as [->|Hu]; [lia|].
    specialize (IH Hu). lia.
Qed.

(** A lookup in a table with one more row at the end. *)
Lemma head_filter_snoc {A} (P : A → Prop) `{!∀ x, Decision (P x)}
    (rows : list A) (row : A) :
  head (filter P (rows ++ [row])%list)
  = match head (filter P rows) with
    | Some x => Some x
    | None => if decide (P row) then Some row else None
    end.
Proof.
  rewrite filter_app. destruct (filter P rows) as [|x found] eqn:Hfound; [|done].
  rewrite app_nil_l, filter_cons. by case_decide.
Qed.

End users.

(** X6.  A token issued for an email resolves to the user registered under
    that email, and to nobody else: before the expiry, [get_current_user] on
    the issued token returns what [get_user_by_email] finds for the email,
    and raises the credentials exception when it finds nobody. *)
Theorem issued_token_resolves (db : Session) (email : string)
    (ttl issued utcnow : Z) :
  0 < ttl → utcnow < issued + ttl →
  let tok := auth.create_access_token {[ "sub" := jose.VStr email ]} (Some ttl) issued in
  auth.get_current_user tok db utcnow
  = match crud.get_user_by_email db email with
    | Some user => Ok user
    | None => Raise (HTTP auth.credentials_exception)
    end
  ∧ ∀ user, auth.get_current_user tok db utcnow = Ok user →
            user ∈ users db ∧ User.email user = email.
Proof.
  intros Httl Hbefore. cbn zeta.
  assert (auth.get_current_user
            (auth.create_access_token {[ "sub" := jose.VStr email ]} (Some ttl) issued)
            db utcnow
          = match crud.get_user_by_email db email with
            | Some user => Ok user
            | None => Raise (HTTP auth.credentials_exception)
            end) as Hresolve.
  { unfold auth.get_current_user. rewrite issue_verify by lia.
    rewrite decide_False; [done|].
    pose proof (timegm_mono utcnow (issued + ttl)). lia. }
  split; [done|]. intros user. rewrite Hresolve.
  destruct (crud.get_user_by_email db email) as [u|] eqn:Hfound; [|done].
  intros [= <-]. by apply get_user_by_email_Some.
Qed.

Lemma issued_token_resolves_witness :
  auth.get_current_user
    (auth.create_access_token {[ "sub" := jose.VStr "b@example.com" ]}
       (Some 1800000000) 0)
    samples.db 1000000
  = Ok samples.bob.
Proof.
  destruct (issued_token_resolves samples.db "b@example.com" 1800000000 0 1000000)
    as (Hresolve & _).
  - lia.
  - lia.
  - exact Hresolve.
Defined.

(** X7.  [authenticate_user] returns a user only when that user is in the
    table under the email given and the password verifies against the
    user's stored hash; and it does return the user found for the email
    whenever the password verifies. *)
Theorem authenticate_user_sound (pwd_context_verify : string → string → bool)
    (db : Session) (email password : string) (user : User.t) :
  crud.authenticate_user pwd_context_verify db email password = Some user ↔
  crud.get_user_by_email db email = Some user
  ∧ user ∈ users db
  ∧ User.email user = email
  ∧ pwd_context_verify password (User.hashed_password user) = true.
Proof.
  unfold crud.authenticate_user, crud.verify_password. split.
  - destruct (crud.get_user_by_email db email) as [u|] eqn:Hfound; [|done].
    destruct (pwd_context_verify password (User.hashed_password u)) eqn:Hpw;
      [|done].
    cbn. intros [= <-]. apply get_user_by_email_Some in Hfound as Hu.
    by destruct Hu.
  - intros (-> & _ & _ & ->). done.
Qed.

(** X8.  Registration, then login.  [create_user] stores the hash of the
    password, not the password.  For an email that is not registered yet,
    the new user is what [get_user_by_email] and [get_user] then find, and,
    for a hashing context whose [verify] accepts its own hashes,
    [authenticate_user] with the same email and password returns the new
    user. *)
Theorem create_user_then_authenticate
    (pwd_context_hash : string → string → string)
    (pwd_context_verify : string → string → bool)
    (db : Session) (user : UserCreate.t) (salt : string) (now : Z) :
  (∀ salt password,
     pwd_context_verify password (pwd_context_hash salt password) = true) →
  crud.get_user_by_email db (UserCreate.email user) = None →
  let '(db', db_user) := crud.create_user pwd_context_hash db user salt now in
  User.email db_user = UserCreate.email user
  ∧ User.hashed_password db_user
    = pwd_context_hash salt (UserCreate.password user)
  ∧ crud.get_user_by_email db' (UserCreate.email user) = Some db_user
  ∧ crud.get_user db' (User.id db_user) = Some db_user
  ∧ crud.authenticate_user pwd_context_verify db'
      (UserCreate.email user) (UserCreate.password user) = Some db_user
  ∧ (∀ password,
       pwd_context_verify password (User.hashed_password db_user) = false →
       crud.authenticate_user pwd_context_verify db'
         (UserCreate.email user) password = None).
Proof.
  intros Hctx Hfresh.
  set (db_user := {| User.id := next_user_id db;
                     User.email := UserCreate.email user;
                     User.hashed_password :=
                       pwd_context_hash salt (UserCreate.password user);
                     User.created_at := now |}).
  set (db' := {| users := users db ++ [db_user]; tasks := tasks db;
                 tasks_seq := tasks_seq db |}).
  change (crud.create_user pwd_context_hash db user salt now) with (db', db_user).
  cbv beta iota.
  assert (crud.get_user_by_email db' (UserCreate.email user) = Some db_user)
    as Hfound.
  { unfold crud.get_user_by_email in *. cbn [users db'].
    rewrite head_filter_snoc, Hfresh. by rewrite decide_True. }
  split; [done|]. split; [done|]. split; [done|]. split.
  { unfold crud.get_user. cbn [users db']. rewrite head_filter_snoc.
    destruct (head (filter (λ u, User.id u = User.id db_user) (users db)))
      as [u|] eqn:Hhead.
    - apply head_Some_elem_of, list_elem_of_filter in Hhead as [Hid Hu].
      apply next_user_id_fresh in Hu. cbn in Hid. lia.
    - by rewrite decide_True. }
  unfold crud.authenticate_user, crud.verify_password. rewrite Hfound.
  split.
  - cbn. by rewrite (Hctx salt).
  - intros password Hpw. by rewrite Hpw.
Qed.

Lemma create_user_then_authenticate_witness :
  crud.authenticate_user samples.toy_verify
    (crud.create_user samples.toy_hash samples.db
       {| UserCreate.email := "c@example.com"; UserCreate.password := "pw12345678" |}
       "salt" 50).1
    "c@example.com" "pw12345678"
  = Some {| User.id := 3; User.email := "c@example.com";
            User.hashed_password := "hash:pw12345678"; User.created_at := 50 |}.
Proof.
  pose proof (create_user_then_authenticate samples.toy_hash samples.toy_verify
                samples.db
                {| UserCreate.email := "c@example.com";
                   UserCreate.password := "pw12345678" |} "salt" 50) as Hcreate.
  cbn in Hcreate. apply Hcreate.
  - intros salt password. unfold samples.toy_verify, samples.toy_hash.
    by apply bool_decide_eq_true.
  - reflexivity.
Defined.

(** X9.  Registering a user touches nobody else: after [create_user],
    every other email resolves and authenticates as before, and the tasks
    are as they were. *)
Theorem create_user_frame (pwd_context_hash : string → string → string)
    (pwd_context_verify : string → string → bool)
    (db : Session) (user : UserCreate.t) (salt : string) (now : Z)
    (email : string) :
  email ≠ UserCreate.email user →
  let db' := (crud.create_user pwd_context_hash db user salt now).1 in
  crud.get_user_by_email db' email = crud.get_user_by_email db email
  ∧ (∀ password,
       crud.authenticate_user pwd_context_verify db' email password
       = crud.authenticate_user pwd_context_verify db email password)
  ∧ (∀ ttl issued utcnow,
       auth.get_current_user
         (auth.create_access_token {[ "sub" := jose.VStr email ]} ttl issued)
         db' utcnow
       = auth.get_current_user
           (auth.create_access_token {[ "sub" := jose.VStr email ]} ttl issued)
           db utcnow)
  ∧ tasks db' = tasks db
  ∧ (∀ u, u ∈ users db → u ∈ users db').
Proof.
  intros Hother. cbn zeta.
  assert (crud.get_user_by_email
            (crud.create_user pwd_context_hash db user salt now).1 email
          = crud.get_user_by_email db email) as Hsame.
  { unfold crud.get_user_by_email. cbn. rewrite head_filter_snoc.
    destruct (head (filter (λ u, User.email u = email) (users db))); [done|].
    by rewrite decide_False. }
  split; [done|]. split.
  { intros password. unfold crud.authenticate_user. by rewrite Hsame. }
  split.
  { intros ttl issued utcnow. unfold auth.get_current_user.
    rewrite issue_verify_any. case_decide; [done|]. cbn [TokenData.email mbind option_bind].
    by rewrite Hsame. }
  split; [done|].
  intros u Hu. cbn. apply elem_of_app. by left.
Qed.

Lemma create_user_frame_witness :
  crud.authenticate_user samples.toy_verify
    (crud.create_user samples.toy_hash samples.db
       {| UserCreate.email := "c@example.com"; UserCreate.password := "pw12345678" |}
       "salt" 50).1
    "a@example.com" "pw12345678"
  = Some samples.alice.
Proof.
  destruct (create_user_frame samples.toy_hash samples.toy_verify samples.db
              {| UserCreate.email := "c@example.com";
                 UserCreate.password := "pw12345678" |} "salt" 50 "a@example.com")
    as (_ & Hauth & _).
  - done.
  - rewrite Hauth. reflexivity.
Defined.

(** ** One owner's requests and another owner's view *)

Section frames.
Implicit Types (db : Session) (t r : Task.t) (rows : list Task.t).

(** A filter does not see a change to rows it does not select. *)
Lemma filter_fmap_unselected (P : Task.t → Prop) `{!∀ r, Decision (P r)}
    (f : Task.t → Task.t) rows :
  (∀ r, r ∈ rows → P r → f r = r) →
  (∀ r, r ∈ rows → ¬ P r → ¬ P (f r)) →
  filter P (f <$> rows) = filter P rows.
Proof.
  induction rows as [|x rows IH]; intros Hkeep Hout; [done|].
  rewrite fmap_cons, !filter_cons.
  assert (filter P (f <$> rows) = filter P rows) as ->.
  { apply IH; intros r Hr; [apply Hkeep|apply Hout]; by right. }
  destruct (decide (P x)) as [HP|HP].
  - rewrite (Hkeep x) by (done || by left). by rewrite decide_True.
  - rewrite decide_False; [done|]. apply Hout; [by left|done].
Qed.

Lemma filter_filter_selected (P Q : Task.t → Prop)
    `{!∀ r, Decision (P r)} `{!∀ r, Decision (Q r)} rows :
  (∀ r, r ∈ rows → P r → Q r) →
  filter P (filter Q rows) = filter P rows.
Proof.
  induction rows as [|x rows IH]; intros Himpl; [done|].
  assert (filter P (filter Q rows) = filter P rows) as Hrows.
  { apply IH. intros r Hr. apply Himpl. by right. }
  rewrite (filter_cons Q). destruct (decide (Q x)) as [HQ|HQ].
  - rewrite !filter_cons. by rewrite Hrows.
  - rewrite Hrows, filter_cons_False; [done|].
    intros HP. apply HQ, Himpl; [by left|done].
Qed.

(** What a request made for one owner leaves untouched: every selection of
    rows of another owner. *)
Lemma serve_filter_other (P : Task.t → Prop) `{!∀ r, Decision (P r)}
    db now (req : store.request) (other : Z) :
  store.store_ok db → store.requester req ≠ other →
  (∀ r, P r → Task.user_id r = other) →
  filter P (tasks (store.serve db (now, req))) = filter P (tasks db).
Proof.
  intros Hok Hreq HP.
  destruct req as [owner task| | |owner task_id task|owner task_id];
    cbn [store.serve store.requester] in *; try done.
  - cbn. rewrite filter_app, filter_cons_False, filter_nil, app_nil_r; [done|].
    intros Hrow. apply HP in Hrow. done.
  - destruct (crud.get_task db task_id owner) as [t|] eqn:Hget;
      [|by rewrite update_task_miss].
    rewrite (update_task_hit _ _ _ _ _ _ Hget). cbn [fst].
    apply get_task_Some in Hget as (Hin & _ & Howner).
    destruct (foldl_setattr_frame (model_dump_exclude_unset task) t)
      as (Hid & Howner' & _).
    set (obj := foldl crud.setattr t (model_dump_exclude_unset task)) in *.
    clearbody obj.
    destruct (commit_refresh_tasks db now obj) as [->| ->]; [done|].
    apply filter_fmap_unselected.
    + intros r Hr HPr. rewrite decide_False; [done|].
      intros Hsame. rewrite Hid in Hsame.
      apply (key_unique db t r Hok Hin Hr) in Hsame. subst r.
      apply HP in HPr. congruence.
    + intros r Hr HPr. case_decide; [|done].
      intros Hrow. apply HP in Hrow. cbn in Hrow. congruence.
  - unfold crud.delete_task.
    destruct (crud.get_task db task_id owner) as [t|] eqn:Hget; [|done].
    cbn. apply get_task_Some in Hget as (Hin & _ & Howner).
    apply filter_filter_selected. intros r Hr HPr Hsame.
    apply (key_unique db t r Hok Hin Hr) in Hsame. subst r.
    apply HP in HPr. congruence.
Qed.

End frames.

(** X10.  A request made for one owner changes nothing that another owner
    can see: in a store with a primary key, after any request of owner [A],
    every page of the listing of [B ≠ A] and every lookup by [B] is what it
    was before. *)
Theorem other_owner_unaffected (db : Session) (now : Z)
    (req : store.request) (B : Z) :
  store.store_ok db → store.requester req ≠ B →
  (∀ skip limit,
     crud.get_tasks (store.serve db (now, req)) B skip limit
     = crud.get_tasks db B skip limit)
  ∧ (∀ task_id,
       crud.get_task (store.serve db (now, req)) task_id B
       = crud.get_task db task_id B).
Proof.
  intros Hok Hreq. split.
  - intros skip limit. unfold crud.get_tasks.
    by rewrite (serve_filter_other _ db now req B Hok Hreq).
  - intros task_id. unfold crud.get_task.
    rewrite (serve_filter_other _ db now req B Hok Hreq); [done|].
    by intros r [_ Hr].
Qed.

Lemma other_owner_unaffected_witness :
  crud.get_tasks
    (store.serve samples.db (30, store.Update 1 1 samples.empty_title)) 2 0 100
  = [samples.report]
  ∧ crud.get_task (store.serve samples.db (31, store.Delete 1 1)) 2 2
    = Some samples.report.
Proof.
  split.
  - destruct (other_owner_unaffected samples.db 30
                (store.Update 1 1 samples.empty_title) 2) as (Hlist & _).
    + by_evaluation.
    + done.
    + rewrite Hlist. reflexivity.
  - destruct (other_owner_unaffected samples.db 31 (store.Delete 1 1) 2)
      as (_ & Hget).
    + by_evaluation.
    + done.
    + rewrite Hget. reflexivity.
Defined.

(** ** Pages *)

Section pages.
Implicit Types (db : Session) (t r : Task.t) (rows : list Task.t).

(** The listing for non-negative [skip] and [limit], in terms of the rows
    of the owner. *)
Lemma get_tasks_nonneg db user_id (skip limit : Z) :
  0 ≤ limit →
  crud.get_tasks db user_id skip limit
  = take (Z.to_nat limit)
      (drop (Z.to_nat skip) (filter (λ t, Task.user_id t = user_id) (tasks db))).
Proof.
  intros Hlimit. unfold crud.get_tasks, models.limit, models.offset.
  by rewrite decide_False by lia.
Qed.

End pages.

(** X11.  Paging.  For non-negative offsets and limits, a page has at
    most [limit] tasks, the page that starts where a page ends continues it
    (so consecutive pages neither repeat nor skip a task), and a page that
    starts at or after the number of the owner's tasks is empty. *)
Theorem pages_concatenate (db : Session) (user_id skip n m : Z) :
  0 ≤ skip → 0 ≤ n → 0 ≤ m →
  (crud.get_tasks db user_id skip n ++ crud.get_tasks db user_id (skip + n) m)%list
  = crud.get_tasks db user_id skip (n + m)
  ∧ Z.of_nat (length (crud.get_tasks db user_id skip n)) ≤ n
  ∧ (Z.of_nat (length (filter (λ t, Task.user_id t = user_id) (tasks db))) ≤ skip →
       crud.get_tasks db user_id skip n = []).
Proof.
  intros Hskip Hn Hm. rewrite !get_tasks_nonneg by lia.
  set (rows := filter (λ t, Task.user_id t = user_id) (tasks db)).
  split; [|split].
  - rewrite !Z2Nat.inj_add by lia.
    rewrite <- drop_drop. apply take_take_drop.
  - rewrite length_take. lia.
  - intros Hpast. rewrite drop_ge by lia. apply take_nil.
Qed.

Lemma pages_concatenate_witness :
  (crud.get_tasks samples.db 1 0 1 ++ crud.get_tasks samples.db 1 (0 + 1) 5)%list
  = crud.get_tasks samples.db 1 0 (1 + 5).
Proof.
  apply (pages_concatenate samples.db 1 0 1 5); lia.
Defined.

(** X12.  Listing and lookup agree.  In a store with a primary key, a
    task on any page of an owner's listing is what [get_task] returns to
    that owner for its identifier; and a task that [get_task] returns is on
    the owner's listing, alone on the page of size one at its position. *)
Theorem listing_lookup_agree (db : Session) (user_id : Z) (t : Task.t) :
  store.store_ok db →
  (∀ skip limit, t ∈ crud.get_tasks db user_id skip limit →
                 crud.get_task db (Task.id t) user_id = Some t)
  ∧ (∀ task_id, crud.get_task db task_id user_id = Some t →
                ∃ skip, 0 ≤ skip ∧ crud.get_tasks db user_id skip 1 = [t]).
Proof.
  intros Hok. split.
  - intros skip limit Hlist. apply get_tasks_owner in Hlist as [Hin <-].
    by apply get_task_owned.
  - intros task_id Hget. apply get_task_Some in Hget as (Hin & _ & Howner).
    assert (t ∈ filter (λ r, Task.user_id r = user_id) (tasks db)) as Hrow
      by (by apply list_elem_of_filter).
    apply list_elem_of_lookup in Hrow as [i Hi].
    exists (Z.of_nat i). split; [lia|].
    rewrite get_tasks_nonneg by lia. rewrite Nat2Z.id.
    change (Z.to_nat 1) with 1%nat.
    rewrite <- (take_drop_middle _ i t Hi) at 1.
    rewrite drop_app_length'; [done|].
    rewrite length_take_le; [done|]. apply lookup_lt_Some in Hi. lia.
Qed.

Lemma listing_lookup_agree_witness :
  crud.get_task samples.db (Task.id samples.report) 2 = Some samples.report.
Proof.
  destruct (listing_lookup_agree samples.db 2 samples.report) as (Hlisted & _).
  - by_evaluation.
  - apply (Hlisted 0 100). by left.
Defined.

(** ** How the operations compose *)

Section composition.
Implicit Types (db : Session) (t r : Task.t) (rows : list Task.t).

(** Deleting by a key removes one row of a table in which it is a key. *)
Lemma length_filter_key rows t :
  NoDup (Task.id <$> rows) → t ∈ rows →
  S (length (filter (λ r, Task.id r ≠ Task.id t) rows)) = length rows.
Proof.
  induction rows as [|x rows IH]; intros Hkey Hin;
    [by apply not_elem_of_nil in Hin|].
  rewrite fmap_cons in Hkey. apply NoDup_cons in Hkey as [Hfresh Hkey].
  rewrite filter_cons. apply elem_of_cons in Hin as [->|Hin].
  - rewrite decide_False by (by intros []). cbn. f_equal.
    f_equal. clear IH Hkey. induction rows as [|y rows IH]; [done|].
    rewrite fmap_cons, not_elem_of_cons in Hfresh. destruct Hfresh as [Hne Hfresh].
    rewrite filter_cons_True by congruence. f_equal. by apply IH.
  - rewrite decide_True.
    + cbn. f_equal. by apply IH.
    + intros Hsame. apply Hfresh. rewrite Hsame. by apply list_elem_of_fmap_2.
Qed.

Lemma filter_comm (P Q : Task.t → Prop)
    `{!∀ r, Decision (P r)} `{!∀ r, Decision (Q r)} rows :
  filter P (filter Q rows) = filter Q (filter P rows).
Proof.
  rewrite !list_filter_filter. apply list_filter_iff. intros r. tauto.
Qed.

Lemma NoDup_filter_key (P : Task.t → Prop) `{!∀ r, Decision (P r)} rows :
  NoDup (Task.id <$> rows) → NoDup (Task.id <$> filter P rows).
Proof.
  induction rows as [|x rows IH]; intros Hkey; [constructor|].
  rewrite fmap_cons in Hkey. apply NoDup_cons in Hkey as [Hfresh Hkey].
  rewrite filter_cons. case_decide; [|by apply IH].
  rewrite fmap_cons. apply NoDup_cons. split; [|by apply IH].
  intros Hx. apply Hfresh. apply list_elem_of_fmap in Hx as (r & -> & Hr).
  apply list_elem_of_filter in Hr as [_ Hr]. by apply list_elem_of_fmap_2.
Qed.

(** The rows handed out before the counter are not touched by a delete of
    the row numbered by the counter. *)
Lemma filter_below_seq rows seq :
  Forall (λ r, Task.id r < seq) rows →
  filter (λ r, Task.id r ≠ seq) rows = rows.
Proof.
  induction 1 as [|x rows Hx _ IH]; [done|].
  rewrite filter_cons_True by lia. by rewrite IH.
Qed.

End composition.

(** X13.  Create, then delete.  In a store whose identifiers are in
    order, deleting the task just created, by its owner, returns that task
    and leaves the rows exactly as they were before the create. *)
Theorem create_then_delete (db : Session) (task : TaskCreate.t)
    (owner now : Z) :
  store.store_ok db →
  let '(db1, t) := crud.create_task db task owner now in
  let '(db2, deleted) := crud.delete_task db1 (Task.id t) owner in
  deleted = Some t
  ∧ tasks db2 = tasks db
  ∧ users db2 = users db
  ∧ (∀ user_id skip limit,
       crud.get_tasks db2 user_id skip limit = crud.get_tasks db user_id skip limit).
Proof.
  intros Hok.
  pose proof (create_task_ok db task owner now Hok) as Hok1.
  destruct (crud.create_task db task owner now) as [db1 t] eqn:Hcreate.
  cbn [fst] in Hok1. unfold crud.create_task, add_commit_refresh in Hcreate.
  injection Hcreate as Hdb1 Ht.
  assert (t ∈ tasks db1) as Hin.
  { rewrite <- Hdb1, <- Ht. cbn. apply elem_of_app. right. by left. }
  assert (crud.get_task db1 (Task.id t) owner = Some t) as Hget.
  { replace owner with (Task.user_id t) by (by rewrite <- Ht).
    by apply get_task_owned. }
  unfold crud.delete_task. rewrite Hget.
  assert (tasks (delete_commit db1 t) = tasks db) as Hrows.
  { rewrite <- Hdb1, <- Ht. cbn. rewrite filter_app, filter_cons_False by (by intros []).
    rewrite filter_nil, app_nil_r. apply filter_below_seq. by destruct Hok. }
  split; [done|]. split; [done|]. split; [by rewrite <- Hdb1|].
  intros user_id skip limit. unfold crud.get_tasks. by rewrite Hrows.
Qed.

Lemma create_then_delete_witness :
  tasks (crud.delete_task
           (crud.create_task samples.db
              {| TaskCreate.title := "X"; TaskCreate.description := None;
                 TaskCreate.priority := LOW |} 1 40).1 3 1).1
  = tasks samples.db.
Proof.
  pose proof (create_then_delete samples.db
                {| TaskCreate.title := "X"; TaskCreate.description := None;
                   TaskCreate.priority := LOW |} 1 40) as Hround.
  cbn in Hround. apply Hround. by_evaluation.
Defined.

(** X14.  A delete that finds the task removes exactly one row: in a
    store with a primary key, the table is one row shorter, and the owner's
    full listing is one task shorter. *)
Theorem delete_task_one_row (db : Session) (task_id owner : Z) (t : Task.t) :
  store.store_ok db →
  crud.get_task db task_id owner = Some t →
  S (length (tasks (crud.delete_task db task_id owner).1)) = length (tasks db)
  ∧ ∀ limit, Z.of_nat (length (tasks db)) ≤ limit →
      S (length (crud.get_tasks (crud.delete_task db task_id owner).1 owner 0 limit))
      = length (crud.get_tasks db owner 0 limit).
Proof.
  intros Hok Hget. unfold crud.delete_task. rewrite Hget. cbn [fst].
  apply get_task_Some in Hget as (Hin & _ & Howner).
  destruct Hok as [Hkey Hseq]. split.
  - cbn. by apply length_filter_key.
  - intros limit Hlimit. rewrite !get_tasks_nonneg by lia.
    change (Z.to_nat 0) with 0%nat. rewrite !drop_0, !take_ge.
    + cbn [tasks delete_commit]. rewrite filter_comm.
      apply length_filter_key; [by apply NoDup_filter_key|].
      by apply list_elem_of_filter.
    + pose proof (length_filter (λ r, Task.user_id r = owner) (tasks db)). lia.
    + pose proof (length_filter (λ r, Task.user_id r = owner)
                    (tasks (delete_commit db t))) as Hlen.
      pose proof (length_filter (λ r, Task.id r ≠ Task.id t) (tasks db)) as Hlen'.
      cbn [tasks delete_commit] in *. lia.
Qed.

Lemma delete_task_one_row_witness :
  S (length (tasks (crud.delete_task samples.db 1 1).1)) = length (tasks samples.db).
Proof.
  destruct (delete_task_one_row samples.db 1 1 samples.milk) as (Hrows & _).
  - by_evaluation.
  - reflexivity.
  - exact Hrows.
Defined.

Section repeated.
Implicit Types (db : Session) (t r : Task.t) (task : TaskUpdate.t).

(** Writing a payload over a task that already carries it changes
    nothing. *)
Lemma foldl_setattr_again t t1 task :
  store.business t1
  = store.business (foldl crud.setattr t (model_dump_exclude_unset task)) →
  foldl crud.setattr t1 (model_dump_exclude_unset task) = t1.
Proof.
  intros Hcarries.
  destruct (foldl_setattr_dump t task) as (Htitle & Hdescr & Hstatus & Hprio).
  destruct (foldl_setattr_dump t1 task) as (Htitle' & Hdescr' & Hstatus' & Hprio').
  destruct (foldl_setattr_frame (model_dump_exclude_unset task) t1)
    as (Hid & Howner & Hcreated & Hupdated).
  cbn zeta in *. unfold store.business in Hcarries.
  rewrite Htitle, Hdescr, Hstatus, Hprio in Hcarries.
  injection Hcarries as Ht Hd Hs Hp.
  apply Task_eq; try done.
  unfold store.business. rewrite Htitle', Hdescr', Hstatus', Hprio'.
  rewrite Ht, Hd, Hs, Hp. unfold store.chosen.
  by repeat case_decide.
Qed.

(** An update keeps the identifier and the owner of every row, in place. *)
Lemma update_task_ids db task_id task user_id now :
  store.store_ok db →
  (λ r, (Task.id r, Task.user_id r))
    <$> tasks (crud.update_task db task_id task user_id now).1
  = (λ r, (Task.id r, Task.user_id r)) <$> tasks db.
Proof.
  intros Hok.
  destruct (crud.get_task db task_id user_id) as [t|] eqn:Hget;
    [|by rewrite update_task_miss].
  rewrite (update_task_hit _ _ _ _ _ _ Hget). cbn [fst].
  apply get_task_Some in Hget as (Hin & _ & _).
  destruct (foldl_setattr_frame (model_dump_exclude_unset task) t)
    as (Hid & Howner & _).
  set (obj := foldl crud.setattr t (model_dump_exclude_unset task)) in *.
  clearbody obj.
  destruct (commit_refresh_tasks db now obj) as [->| ->]; [done|].
  rewrite <- list_fmap_compose. apply list_fmap_ext.
  intros i r Hr. cbn. case_decide as Hsame; [|done]. cbn.
  rewrite Hid in Hsame. apply list_elem_of_lookup_2 in Hr.
  apply (key_unique db t r Hok Hin Hr) in Hsame. subst r. congruence.
Qed.

(** Selecting by owner and projecting identifiers only looks at the pairs
    of identifier and owner. *)
Lemma filter_owner_ids (rows rows' : list Task.t) (user_id : Z) :
  (λ r, (Task.id r, Task.user_id r)) <$> rows'
  = (λ r, (Task.id r, Task.user_id r)) <$> rows →
  Task.id <$> filter (λ r, Task.user_id r = user_id) rows'
  = Task.id <$> filter (λ r, Task.user_id r = user_id) rows.
Proof.
  revert rows'. induction rows as [|x rows IH]; intros [|x' rows'] Hpairs;
    try done.
  rewrite !fmap_cons in Hpairs. injection Hpairs as Hid Howner Hrest.
  rewrite !filter_cons. rewrite Howner.
  case_decide; rewrite ?fmap_cons, ?Hid; by rewrite (IH rows').
Qed.

End repeated.

(** X15.  Repeating an update changes nothing: in a store with a primary
    key, an update of the caller's task followed by the same update returns,
    the second time, the task the first update returned, with the
    updated-timestamp the first update left, and the store stays as the
    first update left it, whatever the time of the second update. *)
Theorem update_task_idempotent (db : Session) (task_id user_id now now' : Z)
    (task : TaskUpdate.t) (t : Task.t) :
  store.store_ok db →
  crud.get_task db task_id user_id = Some t →
  let '(db1, r1) := crud.update_task db task_id task user_id now in
  crud.update_task db1 task_id task user_id now' = (db1, r1)
  ∧ ∃ t1, r1 = Some t1 ∧ crud.get_task db1 task_id user_id = Some t1.
Proof.
  intros Hok Hget.
  pose proof (update_task_ok db task_id task user_id now Hok) as Hok1.
  destruct (update_task_result db task_id task user_id now t Hget)
    as (db1 & t1 & Hupd & Hcarries & Hid & Howner & _ & _ & Hrow & _).
  rewrite Hupd in Hok1 |- *. cbn [fst] in Hok1.
  apply get_task_Some in Hget as (_ & Htid & Huid).
  assert (crud.get_task db1 task_id user_id = Some t1) as Hget1.
  { rewrite <- Htid, <- Huid, <- Hid, <- Howner. by apply get_task_owned. }
  pose proof (update_task_hit db1 task_id task user_id now' t1 Hget1) as Hupd2.
  cbn zeta in Hupd2. rewrite (foldl_setattr_again t t1 task Hcarries) in Hupd2.
  rewrite (commit_refresh_clean db1 now' t1 Hrow) in Hupd2.
  split; [done|]. by exists t1.
Qed.

Lemma update_task_idempotent_witness :
  crud.update_task
    (crud.update_task samples.db 1 samples.status_done 1 30).1
    1 samples.status_done 1 31
  = crud.update_task samples.db 1 samples.status_done 1 30
  ∧ Task.updated_at
      <$> (crud.update_task
             (crud.update_task samples.db 1 samples.status_done 1 30).1
             1 samples.status_done 1 31).2
    = Some 30.
Proof.
  pose proof (update_task_idempotent samples.db 1 1 30 31 samples.status_done
                samples.milk) as Htwice.
  destruct (crud.update_task samples.db 1 samples.status_done 1 30)
    as [db1 r1] eqn:Hfirst.
  destruct Htwice as (Hsecond & _).
  - by_evaluation.
  - reflexivity.
  - cbn [fst]. rewrite Hsecond. split; [done|].
    injection Hfirst as _ <-. reflexivity.
Defined.

(** X16.  An update never adds, removes or moves a task: in a store with
    a primary key, whether or not the update finds its task, every page of
    every owner's listing shows the same identifiers in the same order
    before and after. *)
Theorem update_task_keeps_listings (db : Session) (task_id user_id now : Z)
    (task : TaskUpdate.t) :
  store.store_ok db →
  ∀ owner skip limit,
    Task.id <$> crud.get_tasks (crud.update_task db task_id task user_id now).1
                  owner skip limit
    = Task.id <$> crud.get_tasks db owner skip limit.
Proof.
  intros Hok owner skip limit.
  pose proof (filter_owner_ids _ _ owner
                (update_task_ids db task_id task user_id now Hok)) as Hids.
  unfold crud.get_tasks, models.limit, models.offset.
  case_decide; rewrite ?fmap_take, !fmap_drop; by rewrite Hids.
Qed.

Lemma update_task_keeps_listings_witness :
  Task.id <$> crud.get_tasks
                (crud.update_task samples.db 1 samples.empty_title 1 30).1 1 0 100
  = [1].
Proof.
  rewrite (update_task_keeps_listings samples.db 1 1 30 samples.empty_title).
  - reflexivity.
  - by_evaluation.
Defined.



(** ** The endpoints *)

Section behind_the_token.
Implicit Types (db : Session) (tok : jose.token).

Lemma endpoints_rejected tok db utcnow e :
  auth.get_current_user tok db utcnow = Raise e →
  (∀ skip limit, endpoints.read_tasks tok db utcnow skip limit = Raise e)
  ∧ (∀ task, endpoints.create_task tok db utcnow task = (db, Raise e))
  ∧ (∀ task_id, endpoints.read_task tok db utcnow task_id = Raise e)
  ∧ (∀ task_id task, endpoints.update_task tok db utcnow task_id task = (db, Raise e))
  ∧ (∀ task_id, endpoints.delete_task tok db utcnow task_id = (db, Raise e)).
Proof.
  intros Hreject.
  unfold endpoints.read_tasks, endpoints.create_task, endpoints.read_task,
    endpoints.update_task, endpoints.delete_task.
  by rewrite Hreject.
Qed.

End behind_the_token.

(** X17.  Without a user, nothing happens.  When [get_current_user]
    returns no user for the token, it raises an exception, each of the five
    task endpoints raises that exception, and the three that write (create,
    update, delete) leave the store exactly as it was.  The exception is the
    401 credentials exception, unless [jwt.decode] raised an exception of
    another class than [JWTError], which then is the one raised. *)
Theorem endpoints_require_user (tok : jose.token) (db : Session) (utcnow : Z) :
  (∀ user, auth.get_current_user tok db utcnow ≠ Ok user) →
  ∃ e,
    auth.get_current_user tok db utcnow = Raise e
    ∧ (e = HTTP auth.credentials_exception
       ∨ jose.decode tok auth.SECRET_KEY [auth.ALGORITHM] utcnow
         = Raise (jose.Other e))
    ∧ (∀ skip limit, endpoints.read_tasks tok db utcnow skip limit = Raise e)
    ∧ (∀ task, endpoints.create_task tok db utcnow task = (db, Raise e))
    ∧ (∀ task_id, endpoints.read_task tok db utcnow task_id = Raise e)
    ∧ (∀ task_id task,
         endpoints.update_task tok db utcnow task_id task = (db, Raise e))
    ∧ (∀ task_id, endpoints.delete_task tok db utcnow task_id = (db, Raise e)).
Proof.
  intros Hnobody.
  destruct (auth.get_current_user tok db utcnow) as [user|e] eqn:Hraise;
    [by destruct (Hnobody user)|].
  exists e. split; [done|].
  split; [by apply (get_current_user_raises tok db utcnow)|].
  by apply endpoints_rejected.
Qed.

Lemma endpoints_require_user_witness :
  endpoints.delete_task (jose.Malformed "invalid_token_here") samples.db 0 1
  = (samples.db, Raise (HTTP auth.credentials_exception))
  ∧ endpoints.delete_task samples.null_expiry_token samples.db 0 1
    = (samples.db, Raise TypeError).
Proof.
  destruct (endpoints_require_user (jose.Malformed "invalid_token_here")
              samples.db 0) as (e & Hraise & _ & _ & _ & _ & _ & Hdelete);
    [intros user; discriminate|].
  destruct (endpoints_require_user samples.null_expiry_token samples.db 0)
    as (e' & Hraise' & _ & _ & _ & _ & _ & Hdelete');
    [intros user; by vm_compute|].
  split.
  - rewrite Hdelete. by injection Hraise as <-.
  - rewrite Hdelete'. vm_compute in Hraise'. by injection Hraise' as <-.
Defined.

(** X18.  Isolation, end to end.  Take a token issued for the email of a
    registered user and not yet expired, and a task that belongs to another
    user, in a store with a primary key.  With that token, reading,
    updating and deleting the task each raise the 404 [Task not found], the
    store is left as it was, and no page of the listing shows the task. *)
Theorem endpoints_isolate (db : Session) (email : string) (user : User.t)
    (ttl issued utcnow : Z) (t : Task.t) :
  store.store_ok db →
  0 < ttl → utcnow < issued + ttl →
  crud.get_user_by_email db email = Some user →
  t ∈ tasks db → Task.user_id t ≠ User.id user →
  let tok := auth.create_access_token {[ "sub" := jose.VStr email ]} (Some ttl) issued in
  endpoints.read_task tok db utcnow (Task.id t)
  = Raise (HTTP tasks_router.task_not_found)
  ∧ (∀ task, endpoints.update_task tok db utcnow (Task.id t) task
             = (db, Raise (HTTP tasks_router.task_not_found)))
  ∧ endpoints.delete_task tok db utcnow (Task.id t)
    = (db, Raise (HTTP tasks_router.task_not_found))
  ∧ (∀ skip limit, ∃ page,
       endpoints.read_tasks tok db utcnow skip limit = Ok page ∧ t ∉ page).
Proof.
  intros Hok Httl Hbefore Huser Hin Hforeign. cbn zeta.
  assert (auth.get_current_user
            (auth.create_access_token {[ "sub" := jose.VStr email ]} (Some ttl) issued)
            db utcnow = Ok user) as Hresolve.
  { unfold auth.get_current_user. rewrite issue_verify by lia.
    rewrite decide_False; [cbn; by rewrite Huser|].
    pose proof (timegm_mono utcnow (issued + ttl)). lia. }
  pose proof (get_task_foreign db t (User.id user) Hok Hin Hforeign) as Hget.
  unfold endpoints.read_task, endpoints.update_task, endpoints.delete_task,
    endpoints.read_tasks. rewrite Hresolve.
  unfold tasks_router.read_task, tasks_router.update_task,
    tasks_router.delete_task, tasks_router.read_tasks.
  rewrite Hget, delete_task_miss by done.
  split; [done|]. split; [intros task; by rewrite update_task_miss|].
  split; [done|]. intros skip limit. eexists. split; [done|].
  intros Hlist. apply get_tasks_owner in Hlist as [_ Howner]. done.
Qed.

Lemma endpoints_isolate_witness :
  endpoints.delete_task
    (auth.create_access_token {[ "sub" := jose.VStr "b@example.com" ]}
       (Some 1800000000) 0)
    samples.db 1000000 1
  = (samples.db, Raise (HTTP tasks_router.task_not_found)).
Proof.
  destruct (endpoints_isolate samples.db "b@example.com" samples.bob
              1800000000 0 1000000 samples.milk) as (_ & _ & Hdelete & _).
  - by_evaluation.
  - lia.
  - lia.
  - reflexivity.
  - by left.
  - done.
  - exact Hdelete.
Defined.

(** ** Titles *)

Section titles.
Implicit Types (db : Session) (t r : Task.t).

Lemma validate_bounds title description priority task :
  TaskCreate.validate title description priority = Some task →
  TaskCreate.title task = title
  ∧ (1 ≤ String.length title ≤ 200)%nat
  ∧ TaskCreate.description task = description
  ∧ from_option (λ d, (String.length d ≤ 1000)%nat) True description.
Proof.
  unfold TaskCreate.validate.
  destruct (bool_decide (1 ≤ String.length title ≤ 200)%nat) eqn:Htitle; [|done].
  apply bool_decide_eq_true in Htitle.
  destruct description as [d|]; cbn.
  - destruct (bool_decide (String.length d ≤ 1000)%nat) eqn:Hd; [|done].
    apply bool_decide_eq_true in Hd. by intros [= <-].
  - by intros [= <-].
Qed.

Lemma serve_titles db now (req : store.request) :
  store.title_safe req →
  Forall store.title_in_bounds (tasks db) →
  Forall store.title_in_bounds (tasks (store.serve db (now, req))).
Proof.
  intros Hsafe Hdb.
  destruct req as [owner task| | |owner task_id task|owner task_id];
    cbn [store.serve store.title_safe] in *; try done.
  - cbn. apply Forall_app. split; [done|]. apply Forall_singleton.
    apply validate_bounds in Hsafe as (_ & Hlen & _).
    by exists (TaskCreate.title task).
  - destruct (crud.get_task db task_id owner) as [t|] eqn:Hget;
      [|by rewrite update_task_miss].
    rewrite (update_task_hit _ _ _ _ _ _ Hget). cbn [fst].
    apply get_task_Some in Hget as (Hin & _ & _).
    destruct (foldl_setattr_dump t task) as (Htitle & _). cbn zeta in Htitle.
    unfold store.chosen in Htitle. rewrite decide_False in Htitle by done.
    set (obj := foldl crud.setattr t (model_dump_exclude_unset task)) in *.
    clearbody obj.
    destruct (commit_refresh_tasks db now obj) as [->| ->]; [done|].
    rewrite Forall_forall in Hdb. apply Forall_fmap, Forall_forall.
    intros r Hr. cbn. case_decide; [|by apply Hdb].
    destruct (Hdb t Hin) as (s & Hs & Hlen). exists s. split; [|done].
    cbn. by rewrite Htitle.
  - unfold crud.delete_task. destruct (crud.get_task db task_id owner); [|done].
    cbn. rewrite Forall_forall in Hdb. apply Forall_forall. intros r Hr.
    apply list_elem_of_filter in Hr as [_ Hr]. by apply Hdb.
Qed.

End titles.

(** X20.  The title bound is kept by everything but an update of the
    title.  Starting from a store in which every title has between 1 and
    200 characters, after any sequence of requests in which every create
    carries a body that passed [TaskCreate]'s validation and no update sets
    [title], every title still has between 1 and 200 characters. *)
Theorem titles_stay_in_bounds (rs : list (Z * store.request)) (db : Session) :
  Forall (λ timed, store.title_safe timed.2) rs →
  Forall store.title_in_bounds (tasks db) →
  Forall store.title_in_bounds (tasks (store.serve_all db rs)).
Proof.
  revert db. induction rs as [|[now req] rs IH]; intros db Hrs Hdb; [done|].
  apply Forall_cons in Hrs as [Hreq Hrs]. cbn. apply IH; [done|].
  by apply serve_titles.
Qed.

Lemma titles_stay_in_bounds_witness :
  Forall store.title_in_bounds
    (tasks (store.serve_all samples.db
              [(30, store.Update 1 1 samples.status_done);
               (31, store.Create 2 {| TaskCreate.title := "Call back";
                                      TaskCreate.description := None;
                                      TaskCreate.priority := LOW |});
               (32, store.Delete 2 2)])).
Proof.
  apply titles_stay_in_bounds.
  - apply Forall_cons. split; [cbn; by_evaluation|].
    apply Forall_cons. split; [reflexivity|].
    apply Forall_cons. split; [exact I|constructor].
  - apply Forall_cons. split; [exists "Buy milk"; split; [done|cbn; lia]|].
    apply Forall_cons. split; [exists "Write report"; split; [done|cbn; lia]|].
    constructor.
Defined.
